(** * eyetracking.py: a shallow embedding of the Mirametrix client

    The module keeps its state in Python globals ([line_overflow],
    [calibrated], [keys_received], the socket, three output files and the
    worker thread object).  The embedding threads one [World] record through
    a small state-and-exception monad: an exception leaves the globals as
    they were at the point of the raise, exactly as in Python. *)

From Stdlib Require Import List String Ascii Bool Arith Lia.
Import ListNotations.
Local Open Scope list_scope.
Local Open Scope string_scope.

(** ** Byte strings (Python 2 [str]) *)

Definition LF : ascii := "010"%char.
Definition CR : ascii := "013"%char.
Definition GT : ascii := ">"%char.

Definition nl : string := String LF EmptyString.
Definition crlf : string := String CR (String LF EmptyString).

Definition is_LF (c : ascii) : bool := Ascii.eqb c LF.
Definition is_CR (c : ascii) : bool := Ascii.eqb c CR.

(** [s[-1]]: the last character, or [None] where Python raises IndexError. *)
Fixpoint last_char (s : string) : option ascii :=
  match s with
  | EmptyString => None
  | String c EmptyString => Some c
  | String _ rest => last_char rest
  end.

(** [s.replace('\r', '')] *)
Fixpoint remove_CR (s : string) : string :=
  match s with
  | EmptyString => EmptyString
  | String c rest => if is_CR c then remove_CR rest else String c (remove_CR rest)
  end.

(** [s.splitlines()] on a Python 2 byte string: a line ends at "\n", at "\r"
    or at "\r\n"; the line ends are dropped and a final line end opens no
    further empty line. *)
Fixpoint splitlines (s : string) : list string :=
  match s with
  | EmptyString => []
  | String c rest =>
      if is_LF c then EmptyString :: splitlines rest
      else if is_CR c then
        match rest with
        | String c' rest' =>
            if is_LF c' then EmptyString :: splitlines rest'
            else EmptyString :: splitlines rest
        | EmptyString => [EmptyString]
        end
      else
        match splitlines rest with
        | [] => [String c EmptyString]
        | line :: lines => String c line :: lines
        end
  end.

(** [k in keys] and [dict[k]] on the attribute dictionary of an element,
    kept as an association list in the dictionary's iteration order. *)
Fixpoint mem_key (k : string) (keys : list string) : bool :=
  match keys with
  | [] => false
  | k' :: more => if String.eqb k k' then true else mem_key k more
  end.

Fixpoint dict_get (k : string) (d : list (string * string)) : option string :=
  match d with
  | [] => None
  | (k', v) :: more => if String.eqb k k' then Some v else dict_get k more
  end.

(** ** Globals, exceptions and the monad *)

Inductive exn : Type :=
| IndexError      (* [line_list[0]] on [], [line[-1]] on '' *)
| ParseError      (* xml.etree.ElementTree.fromstring *)
| ValueError      (* I/O operation on closed file *)
| NameError       (* an output global read before start_eyetracking *)
| KeyError
| SocketError     (* send on a socket that is not connected *)
| RuntimeError.   (* threads can only be started once *)

Inductive outcome (A : Type) : Type :=
| Ok (a : A)
| Raise (e : exn).
Arguments Ok {A} a.
Arguments Raise {A} e.

(** A file object opened with mode 'w': every [write] call appends one
    entry to [written]. *)
Record file : Type := mkfile {
  path : string;
  closed : bool;
  written : list string
}.

(** A [WorkerThread] object: [is_running] is an attribute that does not
    exist until somebody assigns it. *)
Record WorkerThread : Type := mkWorker {
  started : bool;
  is_running : option bool
}.

Record World : Type := mkWorld {
  sock_connected : bool;
  transmitted : list string;
  line_overflow : list string;
  calibrated : bool;
  keys_received : bool;
  record_output : option file;
  calibration_output : option file;
  XML_output : option file;
  tracker : WorkerThread;
  replaced_trackers : list WorkerThread
}.

Definition set_sock_connected (b : bool) (w : World) : World :=
  mkWorld b (transmitted w) (line_overflow w) (calibrated w) (keys_received w)
          (record_output w) (calibration_output w) (XML_output w)
          (tracker w) (replaced_trackers w).
Definition set_transmitted (t : list string) (w : World) : World :=
  mkWorld (sock_connected w) t (line_overflow w) (calibrated w) (keys_received w)
          (record_output w) (calibration_output w) (XML_output w)
          (tracker w) (replaced_trackers w).
Definition set_line_overflow (o : list string) (w : World) : World :=
  mkWorld (sock_connected w) (transmitted w) o (calibrated w) (keys_received w)
          (record_output w) (calibration_output w) (XML_output w)
          (tracker w) (replaced_trackers w).
Definition set_calibrated (b : bool) (w : World) : World :=
  mkWorld (sock_connected w) (transmitted w) (line_overflow w) b (keys_received w)
          (record_output w) (calibration_output w) (XML_output w)
          (tracker w) (replaced_trackers w).
Definition set_keys_received (b : bool) (w : World) : World :=
  mkWorld (sock_connected w) (transmitted w) (line_overflow w) (calibrated w) b
          (record_output w) (calibration_output w) (XML_output w)
          (tracker w) (replaced_trackers w).
Definition set_record_output (f : option file) (w : World) : World :=
  mkWorld (sock_connected w) (transmitted w) (line_overflow w) (calibrated w)
          (keys_received w) f (calibration_output w) (XML_output w)
          (tracker w) (replaced_trackers w).
Definition set_calibration_output (f : option file) (w : World) : World :=
  mkWorld (sock_connected w) (transmitted w) (line_overflow w) (calibrated w)
          (keys_received w) (record_output w) f (XML_output w)
          (tracker w) (replaced_trackers w).
Definition set_XML_output (f : option file) (w : World) : World :=
  mkWorld (sock_connected w) (transmitted w) (line_overflow w) (calibrated w)
          (keys_received w) (record_output w) (calibration_output w) f
          (tracker w) (replaced_trackers w).
Definition set_tracker (t : WorkerThread) (w : World) : World :=
  mkWorld (sock_connected w) (transmitted w) (line_overflow w) (calibrated w)
          (keys_received w) (record_output w) (calibration_output w) (XML_output w)
          t (replaced_trackers w).
Definition set_replaced_trackers (l : list WorkerThread) (w : World) : World :=
  mkWorld (sock_connected w) (transmitted w) (line_overflow w) (calibrated w)
          (keys_received w) (record_output w) (calibration_output w) (XML_output w)
          (tracker w) l.

(** The globals as the module body leaves them on import. *)
Definition module_init : World :=
  mkWorld false [] [] false false None None None (mkWorker false None) [].

Definition M (A : Type) : Type := World -> outcome A * World.

Definition ret {A : Type} (a : A) : M A := fun w => (Ok a, w).
Definition raise {A : Type} (e : exn) : M A := fun w => (Raise e, w).
Definition bind {A B : Type} (m : M A) (k : A -> M B) : M B :=
  fun w =>
    match m w with
    | (Ok a, w') => k a w'
    | (Raise e, w') => (Raise e, w')
    end.
Definition gets {A : Type} (f : World -> A) : M A := fun w => (Ok (f w), w).
Definition modify (f : World -> World) : M unit := fun w => (Ok tt, f w).

Notation "x <- m ;; k" := (bind m (fun x => k))
  (at level 61, m at next level, right associativity).
Notation "m ;; k" := (bind m (fun _ => k))
  (at level 61, right associativity).

(** [for x in xs: body(x)] *)
Fixpoint for_each {A : Type} (xs : list A) (body : A -> M unit) : M unit :=
  match xs with
  | [] => ret tt
  | x :: more => body x ;; for_each more body
  end.

(** ** connect, disconnect, tx, rx *)

(** [connect()]: the bare [except] swallows every failure and the function
    then returns None, which the caller tests as false.  [reachable] says
    whether the server accepts the connection. *)
Definition connect (reachable : bool) : M bool :=
  fun w =>
    if sock_connected w then (Ok false, w)
    else if reachable then (Ok true, set_sock_connected true w)
    else (Ok false, w).

(** [disconnect()]: close the socket and bind [sock] to a new one. *)
Definition disconnect : M unit := modify (set_sock_connected false).

(** [tx(msg)]: [sock.send(str.encode(msg + '\r\n'))], for a [msg] of 7-bit
    characters, as every command of the module is.  On any other text
    [str.encode] raises UnicodeDecodeError; that raise is not part of this
    definition, and the statements that need it assume [seven_bit]. *)
Definition tx (msg : string) : M unit :=
  fun w =>
    if sock_connected w
    then (Ok tt, set_transmitted (transmitted w ++ [(msg ++ crlf)%string])%list w)
    else (Raise SocketError, w).

(** [rx()], given the text that [sock.recv] delivered: carriage returns are
    removed (decoding and the ASCII normalisation do not change ASCII
    text).  On a byte of 128 or more [str.decode] raises UnicodeDecodeError,
    and [recv] itself raises on a socket that is not connected; neither
    raise is part of this definition: [recv] stands for 7-bit text that has
    been received, and the statements that need it assume [seven_bit]. *)
Definition rx (recv : string) : string := remove_CR recv.

(** ** fill_buffer *)

(** The loop [for line in line_list] with its two variables, the local
    [line_buffer] and the global [line_overflow]. *)
Fixpoint for_lines (line_list line_buffer line_overflow : list string)
  : outcome (list string) * list string :=
  match line_list with
  | [] => (Ok line_buffer, line_overflow)
  | line :: more =>
      match last_char line with
      | None => (Raise IndexError, line_overflow)
      | Some c =>
          if Ascii.eqb c GT
          then for_lines more (line_buffer ++ [line])%list line_overflow
          else for_lines more line_buffer [line]
      end
  end.

(** [fill_buffer()] as a function of the global [line_overflow] and of the
    text received; it returns [line_buffer] (or the exception) and the new
    [line_overflow]. *)
Definition fill_buffer_from (line_overflow : list string) (recv : string)
  : outcome (list string) * list string :=
  let partial_XML := rx recv in
  let line_list := splitlines partial_XML in
  match line_overflow with
  | [] => for_lines line_list [] line_overflow
  | pending :: _ =>
      match line_list with
      | [] => (Raise IndexError, line_overflow)
      | first :: others => for_lines ((pending ++ first) :: others) [] []
      end
  end.

Definition fill_buffer (recv : string) : M (list string) :=
  fun w =>
    let (r, o) := fill_buffer_from (line_overflow w) recv in
    (r, set_line_overflow o w).

(** Successive calls of [fill_buffer], one per chunk received, with the
    buffers they return put end to end. *)
Fixpoint feed (chunks : list string) : M (list string) :=
  match chunks with
  | [] => ret []
  | recv :: more =>
      line_buffer <- fill_buffer recv ;;
      later <- feed more ;;
      ret (line_buffer ++ later)%list
  end.

(** ** Output files *)

(** One of the three output globals, as a getter and a setter on [World]. *)
Record handle : Type := mkhandle {
  h_get : World -> option file;
  h_set : option file -> World -> World
}.

Definition h_record : handle := mkhandle record_output set_record_output.
Definition h_calibration : handle :=
  mkhandle calibration_output set_calibration_output.
Definition h_XML : handle := mkhandle XML_output set_XML_output.

(** [open(name, 'w')] bound to the global, for a file that can be opened.
    [open] raises IOError when it cannot; that raise is not part of this
    definition, and no statement below says that an [open] goes through. *)
Definition file_open (h : handle) (name : string) : M unit :=
  modify (h_set h (Some (mkfile name false []))).

Definition file_write (h : handle) (s : string) : M unit :=
  fun w =>
    match h_get h w with
    | None => (Raise NameError, w)
    | Some f =>
        if closed f then (Raise ValueError, w)
        else (Ok tt, h_set h (Some (mkfile (path f) false (written f ++ [s])%list)) w)
    end.

Definition file_flush (h : handle) : M unit :=
  fun w =>
    match h_get h w with
    | None => (Raise NameError, w)
    | Some f => if closed f then (Raise ValueError, w) else (Ok tt, w)
    end.

(** [close()] of a closed file does nothing. *)
Definition file_close (h : handle) : M unit :=
  fun w =>
    match h_get h w with
    | None => (Raise NameError, w)
    | Some f => (Ok tt, h_set h (Some (mkfile (path f) true (written f))) w)
    end.

(** ** Protocol commands *)

Definition DQ : ascii := "034"%char.
Definition dq : string := String DQ EmptyString.

(** [<SET ID="id" STATE="state" />] *)
Definition set_command (id state : string) : string :=
  "<SET ID=" ++ dq ++ id ++ dq ++ " STATE=" ++ dq ++ state ++ dq ++ " />".

Definition hide_calibration : string := set_command "CALIBRATE_SHOW" "0".

Definition initialize_server : M unit :=
  tx (set_command "ENABLE_SEND_DATA" "1") ;;
  tx (set_command "ENABLE_SEND_COUNTER" "1") ;;
  tx (set_command "ENABLE_SEND_EYE_LEFT" "1") ;;
  tx (set_command "ENABLE_SEND_EYE_RIGHT" "1") ;;
  tx (set_command "ENABLE_SEND_POG_LEFT" "1") ;;
  tx (set_command "ENABLE_SEND_POG_RIGHT" "1") ;;
  tx (set_command "ENABLE_SEND_POG_BEST" "1") ;;
  tx (set_command "ENABLE_SEND_PUPIL_LEFT" "1") ;;
  tx (set_command "ENABLE_SEND_PUPIL_RIGHT" "1") ;;
  tx (set_command "ENABLE_SEND_POG_FIX" "1") ;;
  tx (set_command "ENABLE_SEND_TIME" "1").

Definition perform_calibration : M unit :=
  tx ("<SET ID=" ++ dq ++ "CALIBRATE_SHOW" ++ dq ++ " STATE=" ++ dq ++ "1" ++ dq ++ "  />") ;;
  tx (set_command "CALIBRATE_START" "1").

(** ** parse_XML *)

(** What [xmlObject.fromstring] returns for one statement: the tag and the
    attribute dictionary, in iteration order ([keys()] and [values()] walk
    it in the same order). *)
Record Element : Type := mkElement {
  tag : string;
  attrib : list (string * string)
}.

Definition el_keys (e : Element) : list string := map fst (attrib e).
Definition el_values (e : Element) : list string := map snd (attrib e).

(** A stand-in for the XML library on a handful of statements, used where a
    statement is evaluated on concrete input.  Every other text is rejected.
    The attributes are listed in the order in which the statement writes
    them; a dictionary may iterate in another order, which would permute the
    cells of the sample rows and nothing else: every theorem is stated for
    an arbitrary [fromstring]. *)
Definition sample_fromstring (XML : string) : option Element :=
  if String.eqb XML "<SET ID='X' STATE='1' />"
  then Some (mkElement "SET" [("ID", "X"); ("STATE", "1")])
  else if String.eqb XML "<CAL ID='CALIB_RESULT' AVE_ERROR='0.5' />"
  then Some (mkElement "CAL" [("ID", "CALIB_RESULT"); ("AVE_ERROR", "0.5")])
  else if String.eqb XML "<REC FPOGX='0.4' FPOGY='0.6' />"
  then Some (mkElement "REC" [("FPOGX", "0.4"); ("FPOGY", "0.6")])
  else if String.eqb XML "<REC FPOGX='0.1' FPOGY='0.2' />"
  then Some (mkElement "REC" [("FPOGX", "0.1"); ("FPOGY", "0.2")])
  else if String.eqb XML "<REC ID='CALIB_RESULT' />"
  then Some (mkElement "REC" [("ID", "CALIB_RESULT")])
  else if String.eqb XML "<REC />"
  then Some (mkElement "REC" [])
  else None.

Section Program.

(** [xml.etree.ElementTree.fromstring]; [None] stands for ParseError. *)
Variable fromstring : string -> option Element.

Definition xml_fromstring (XML : string) : M Element :=
  match fromstring XML with
  | Some e => ret e
  | None => raise ParseError
  end.

(** The body of [for XML in fill_buffer()], block by block. *)

(** set global 'calibrated' to True once calibration is complete *)
Definition note_calibration (thisXML : Element) : M unit :=
  let dict := attrib thisXML in
  let keys := el_keys thisXML in
  if mem_key "ID" keys then
    match dict_get "ID" dict with
    | None => raise KeyError
    | Some id =>
        if String.eqb id "CALIB_RESULT" then
          tx hide_calibration ;;
          modify (set_calibrated true)
        else ret tt
    end
  else ret tt.

(** write to calibration output file *)
Definition write_calibration (thisXML : Element) : M unit :=
  let tag := tag thisXML in
  let keys := el_keys thisXML in
  let values := el_values thisXML in
  if String.eqb tag "CAL" then
    for_each keys (fun key => file_write h_calibration (key ++ ",")) ;;
    file_write h_calibration nl ;;
    for_each values (fun value => file_write h_calibration (value ++ ",")) ;;
    file_write h_calibration nl ;;
    file_flush h_calibration
  else ret tt.

(** write to record output file *)
Definition write_record (thisXML : Element) : M unit :=
  let tag := tag thisXML in
  let keys := el_keys thisXML in
  let values := el_values thisXML in
  is_calibrated <- gets calibrated ;;
  if is_calibrated then
    if String.eqb tag "REC" then
      have_keys <- gets keys_received ;;
      (if negb have_keys then
         for_each keys (fun key =>
           file_write h_record (key ++ ",") ;;
           modify (set_keys_received true)) ;;
         file_write h_record nl
       else ret tt) ;;
      for_each values (fun value => file_write h_record (value ++ ",")) ;;
      file_write h_record nl ;;
      file_flush h_record
    else ret tt
  else ret tt.

Definition interpret (XML : string) : M unit :=
  file_write h_XML XML ;;
  file_write h_XML nl ;;
  thisXML <- xml_fromstring XML ;;
  note_calibration thisXML ;;
  write_calibration thisXML ;;
  write_record thisXML.

(** [parse_XML()], given the text its [rx()] call receives. *)
Definition parse_XML (recv : string) : M unit :=
  line_buffer <- fill_buffer recv ;;
  for_each line_buffer interpret.

Definition XML_callback (recv : string) : M unit := parse_XML recv.

(** ** WorkerThread

    Seen from one thread the lock is transparent, so [acquire] and
    [release] leave no trace here; the interleaving of the two threads on
    the flag is the subject of [Module Interleaving]. *)

Definition stop_running : M unit :=
  modify (fun w => set_tracker (mkWorker (started (tracker w)) (Some false)) w).

(** The [while True] loop of [run].  Each iteration consumes the text of
    one [recv]; the boolean says whether the controlling thread called
    [stop_running] while the iteration was under way.  At the end of the
    list the thread is waiting in [recv]. *)
Fixpoint run_loop (inputs : list (string * bool)) : M unit :=
  match inputs with
  | [] => ret tt
  | (recv, stop_requested) :: more =>
      XML_callback recv ;;
      (if stop_requested then stop_running else ret tt) ;;
      flag <- gets (fun w => is_running (tracker w)) ;;
      match flag with
      | Some true => run_loop more
      | Some false => ret tt
      | None => raise NameError
      end
  end.

Definition run (inputs : list (string * bool)) : M unit :=
  modify (fun w => set_tracker (mkWorker (started (tracker w)) (Some true)) w) ;;
  run_loop inputs.

(** [tracker.start()] *)
Definition tracker_start : M unit :=
  fun w =>
    if started (tracker w) then (Raise RuntimeError, w)
    else (Ok tt, set_tracker (mkWorker true (is_running (tracker w))) w).

(** ** start_eyetracking and stop_eyetracking *)

Definition start_eyetracking (output_filename : string) (reachable : bool)
  : M unit :=
  file_open h_record (output_filename ++ "_record.csv") ;;
  file_open h_calibration (output_filename ++ "_calibration.csv") ;;
  file_open h_XML (output_filename ++ "_xml.csv") ;;
  connected <- connect reachable ;;
  if connected then
    initialize_server ;;
    tracker_start ;;
    perform_calibration
  else ret tt.

Definition stop_eyetracking : M unit :=
  modify (set_calibrated false) ;;
  stop_running ;;
  modify (fun w =>
    set_tracker (mkWorker false None)
      (set_replaced_trackers (tracker w :: replaced_trackers w) w)) ;;
  disconnect ;;
  file_close h_record ;;
  file_close h_calibration ;;
  file_close h_calibration.

End Program.

(** ** The two threads and the flag [is_running]

    The worker thread executes [run]; the controlling thread executes
    [stop_running].  Each atomic action of either is one step; a schedule
    says which thread moves next.  Only the lock and the flag are shared. *)

Module Interleaving.

Inductive thread : Type := Worker | Caller.

(** Program points of [run]. *)
Inductive worker_pc : Type :=
| W_assign_true    (* self.is_running = True *)
| W_callback       (* XML_callback() *)
| W_acquire        (* self.lock.acquire() *)
| W_test           (* if not self.is_running *)
| W_release_break  (* self.lock.release(); break *)
| W_release_again  (* else: self.lock.release() *)
| W_finished.

(** Program points of [stop_running]. *)
Inductive caller_pc : Type :=
| C_acquire        (* self.lock.acquire() *)
| C_assign_false   (* self.is_running = False *)
| C_release        (* self.lock.release() *)
| C_returned.

Record config : Type := mkconfig {
  lock : option thread;
  flag : option bool;
  wpc : worker_pc;
  cpc : caller_pc;
  (* how many reads and writes of the flag were made by a thread that did
     not hold the lock at that moment *)
  unguarded : nat
}.

Definition thread_eqb (a b : thread) : bool :=
  match a, b with
  | Worker, Worker | Caller, Caller => true
  | _, _ => false
  end.

Definition holds_lock (t : thread) (c : config) : bool :=
  match lock c with
  | Some t' => thread_eqb t t'
  | None => false
  end.

Definition note_access (t : thread) (c : config) : nat :=
  if holds_lock t c then unguarded c else S (unguarded c).

Definition worker_step (c : config) : option config :=
  match wpc c with
  | W_assign_true =>
      Some (mkconfig (lock c) (Some true) W_callback (cpc c) (note_access Worker c))
  | W_callback =>
      Some (mkconfig (lock c) (flag c) W_acquire (cpc c) (unguarded c))
  | W_acquire =>
      match lock c with
      | None => Some (mkconfig (Some Worker) (flag c) W_test (cpc c) (unguarded c))
      | Some _ => None
      end
  | W_test =>
      match flag c with
      | Some true =>
          Some (mkconfig (lock c) (flag c) W_release_again (cpc c) (note_access Worker c))
      | Some false =>
          Some (mkconfig (lock c) (flag c) W_release_break (cpc c) (note_access Worker c))
      | None => None
      end
  | W_release_break =>
      Some (mkconfig None (flag c) W_finished (cpc c) (unguarded c))
  | W_release_again =>
      Some (mkconfig None (flag c) W_callback (cpc c) (unguarded c))
  | W_finished => None
  end.

Definition caller_step (c : config) : option config :=
  match cpc c with
  | C_acquire =>
      match lock c with
      | None => Some (mkconfig (Some Caller) (flag c) (wpc c) C_assign_false (unguarded c))
      | Some _ => None
      end
  | C_assign_false =>
      Some (mkconfig (lock c) (Some false) (wpc c) C_release (note_access Caller c))
  | C_release =>
      Some (mkconfig None (flag c) (wpc c) C_returned (unguarded c))
  | C_returned => None
  end.

Definition step (t : thread) (c : config) : option config :=
  match t with
  | Worker => worker_step c
  | Caller => caller_step c
  end.

(** A thread that is scheduled while it waits for the lock, or after it
    has finished, does not move. *)
Fixpoint exec (schedule : list thread) (c : config) : config :=
  match schedule with
  | [] => c
  | t :: later =>
      match step t c with
      | Some c' => exec later c'
      | None => exec later c
      end
  end.

(** [tracker.start()] has just returned and the caller is about to call
    [tracker.stop_running()]. *)
Definition started_config : config :=
  mkconfig None None W_assign_true C_acquire 0.

(** The worker is somewhere in its loop with the flag true, nobody else
    holding the lock and the caller back from [stop_running]. *)
Definition spinning (c : config) : Prop :=
  flag c = Some true /\ cpc c = C_returned /\
  ((wpc c = W_callback /\ lock c = None) \/
   (wpc c = W_acquire /\ lock c = None) \/
   (wpc c = W_test /\ lock c = Some Worker) \/
   (wpc c = W_release_again /\ lock c = Some Worker)).

(** The lock is held exactly by the thread that stands between its
    [acquire] and its [release]. *)
Definition worker_inside (p : worker_pc) : bool :=
  match p with
  | W_test | W_release_break | W_release_again => true
  | _ => false
  end.

Definition caller_inside (p : caller_pc) : bool :=
  match p with
  | C_assign_false | C_release => true
  | _ => false
  end.

Definition lock_consistent (c : config) : bool :=
  match lock c with
  | None => negb (worker_inside (wpc c)) && negb (caller_inside (cpc c))
  | Some Worker => worker_inside (wpc c) && negb (caller_inside (cpc c))
  | Some Caller => negb (worker_inside (wpc c)) && caller_inside (cpc c)
  end.

End Interleaving.

(** ** Vocabulary of the statements *)

(** No line end inside. *)
Fixpoint plain (s : string) : bool :=
  match s with
  | EmptyString => true
  | String c rest => negb (is_LF c) && negb (is_CR c) && plain rest
  end.

(** [line[-1] == '>'], false on the empty string. *)
Definition ends_with_GT (s : string) : bool :=
  match last_char s with
  | Some c => Ascii.eqb c GT
  | None => false
  end.

(** A complete message: one line closed by the terminator. *)
Definition terminated_message (m : string) : bool := plain m && ends_with_GT m.

(** The messages on the wire after [rx]: each followed by a newline. *)
Fixpoint wire (msgs : list string) : string :=
  match msgs with
  | [] => EmptyString
  | m :: more => m ++ nl ++ wire more
  end.

Fixpoint join (chunks : list string) : string :=
  match chunks with
  | [] => EmptyString
  | c :: more => c ++ join more
  end.

(** A chunk that, once the carriage returns are gone, is not empty and does
    not stop right after a '>'. *)
Definition cut_inside (recv : string) : bool :=
  negb (String.eqb (rx recv) EmptyString) && negb (ends_with_GT (rx recv)).

(** The global [line_overflow] that holds the pending text [p], if any. *)
Definition overflow_of (p : string) : list string :=
  match p with
  | EmptyString => []
  | String _ _ => [p]
  end.

(** The line list after [line_list[0] = line_overflow[0] + line_list[0]]. *)
Definition joined_lines (line_overflow line_list : list string) : list string :=
  match line_overflow, line_list with
  | pending :: _, first :: others => (pending ++ first) :: others
  | _, _ => line_list
  end.

(** One comma-ended cell per entry, then the newline: the writes of one row. *)
Definition row (cells : list string) : list string :=
  (map (fun cell => (cell ++ ",")%string) cells ++ [nl])%list.

(** The test [if "ID" in keys: if dict['ID'] == "CALIB_RESULT"]. *)
Definition is_calib_result (e : Element) : bool :=
  mem_key "ID" (el_keys e) &&
  match dict_get "ID" (attrib e) with
  | Some id => String.eqb id "CALIB_RESULT"
  | None => false
  end.

Definition is_REC (e : Element) : bool := String.eqb (tag e) "REC".
Definition is_CAL (e : Element) : bool := String.eqb (tag e) "CAL".

(** The REC elements that arrive once calibration has been reported; [cal]
    is the flag before the first element. *)
Fixpoint routed_records (els : list Element) (cal : bool) : list Element :=
  match els with
  | [] => []
  | e :: more =>
      let cal' := cal || is_calib_result e in
      if cal' && is_REC e
      then e :: routed_records more cal'
      else routed_records more cal'
  end.

(** What the data-record sink should hold for those records: the attribute
    names of the first one if the header is still due, then one values row
    for each. *)
Definition data_rows (header_due : bool) (records : list Element) : list string :=
  match records with
  | [] => []
  | e :: _ =>
      ((if header_due then row (el_keys e) else []) ++
       flat_map (fun r => row (el_values r)) records)%list
  end.

Definition has_attributes (e : Element) : bool :=
  match attrib e with
  | [] => false
  | _ :: _ => true
  end.

(** All three sinks open and the socket connected. *)
Definition is_open (f : option file) : bool :=
  match f with
  | Some f' => negb (closed f')
  | None => false
  end.

Definition file_written (f : option file) : list string :=
  match f with
  | Some f' => written f'
  | None => []
  end.

Definition session_live (w : World) : bool :=
  sock_connected w && is_open (record_output w) &&
  is_open (calibration_output w) && is_open (XML_output w).

Fixpoint parse_all (fromstring : string -> option Element) (msgs : list string)
  : option (list Element) :=
  match msgs with
  | [] => Some []
  | m :: more =>
      match fromstring m, parse_all fromstring more with
      | Some e, Some es => Some (e :: es)
      | _, _ => None
      end
  end.

(** [P] survives whatever [m] does, whether it returns or raises. *)
Definition preserves {A : Type} (P : World -> Prop) (m : M A) : Prop :=
  forall w, P w -> P (snd (m w)).

(** A property of the globals that no file, socket or overflow update
    touches. *)
Definition sink_blind (P : World -> Prop) : Prop :=
  (forall f w, P w -> P (set_XML_output f w)) /\
  (forall f w, P w -> P (set_calibration_output f w)) /\
  (forall f w, P w -> P (set_record_output f w)) /\
  (forall t w, P w -> P (set_transmitted t w)) /\
  (forall o w, P w -> P (set_line_overflow o w)) /\
  (forall t w, P w -> P (set_tracker t w)).

(** ** Vocabulary of the further properties *)

(** [line_overflow] as the module keeps it: nothing, or one fragment that
    is not empty and does not end in '>'. *)
Definition overflow_ok (ov : list string) : bool :=
  match ov with
  | [] => true
  | [p] => negb (String.eqb p EmptyString) && negb (ends_with_GT p)
  | _ :: _ :: _ => false
  end.

Definition unterminated (l : string) : bool := negb (ends_with_GT l).
Definition is_empty (l : string) : bool := String.eqb l EmptyString.

(** Text the ASCII codec accepts: every character is below 128.  This is
    the text on which [str.decode] in [rx] and [str.encode] in [tx] do not
    raise. *)
Definition seven_bit_char (c : ascii) : bool :=
  match c with
  | Ascii _ _ _ _ _ _ _ top => negb top
  end.

Fixpoint seven_bit (s : string) : bool :=
  match s with
  | EmptyString => true
  | String c rest => seven_bit_char c && seven_bit rest
  end.

(** What [tx] puts on the wire for a message. *)
Definition framed (msg : string) : string := msg ++ crlf.

(** A file object that is the same file, as open or closed as before, with
    its content extended at the end. *)
Definition file_extends (f f' : option file) : Prop :=
  match f, f' with
  | None, None => True
  | Some a, Some b =>
      path b = path a /\ closed b = closed a /\
      exists more, written b = (written a ++ more)%list
  | _, _ => False
  end.

(** From [w] to [w'] the connection and the thread objects are the same,
    the sinks and the bytes sent have only been extended, and neither flag
    has gone back to false. *)
Definition moves_forward (w w' : World) : Prop :=
  sock_connected w' = sock_connected w /\
  tracker w' = tracker w /\
  replaced_trackers w' = replaced_trackers w /\
  (exists more, transmitted w' = (transmitted w ++ more)%list) /\
  (calibrated w = true -> calibrated w' = true) /\
  (keys_received w = true -> keys_received w' = true) /\
  file_extends (record_output w) (record_output w') /\
  file_extends (calibration_output w) (calibration_output w') /\
  file_extends (XML_output w) (XML_output w').

(** The same, with [line_overflow] untouched. *)
Definition steady (w w' : World) : Prop :=
  moves_forward w w' /\ line_overflow w' = line_overflow w.

(** [m] takes every world to one related to it by [R], whether it returns
    or raises. *)
Definition keeps {A : Type} (R : World -> World -> Prop) (m : M A) : Prop :=
  forall w, R w (snd (m w)).

(** A thread object that has been started belongs to a connected socket. *)
Definition tracker_guarded (w : World) : bool :=
  implb (started (tracker w)) (sock_connected w).

Definition is_bound (f : option file) : bool :=
  match f with
  | Some _ => true
  | None => false
  end.

(** The three output files as [start_eyetracking] opens them. *)
Definition with_fresh_outputs (output_filename : string) (w : World) : World :=
  set_XML_output (Some (mkfile (output_filename ++ "_xml.csv") false []))
    (set_calibration_output
       (Some (mkfile (output_filename ++ "_calibration.csv") false []))
       (set_record_output
          (Some (mkfile (output_filename ++ "_record.csv") false [])) w)).

(** ** Sample data *)

(** A session right after [start_eyetracking("out")] found the server. *)
Definition sample_session : World :=
  snd (start_eyetracking "out" true module_init).

Definition msg_SET : string := "<SET ID='X' STATE='1' />".
Definition msg_CAL : string := "<CAL ID='CALIB_RESULT' AVE_ERROR='0.5' />".
Definition msg_REC : string := "<REC FPOGX='0.4' FPOGY='0.6' />".
Definition msg_REC2 : string := "<REC FPOGX='0.1' FPOGY='0.2' />".

(** A line that is no XML statement, between two that are. *)
Definition stream_with_bad_line : string :=
  msg_SET ++ crlf ++ "<oops>" ++ crlf ++ msg_CAL ++ crlf.

(** The sample session once the device has reported the calibration. *)
Definition calibrated_session : World :=
  snd (parse_XML sample_fromstring (msg_CAL ++ crlf) sample_session).

(** The sample session after a calibration result and one data record: the
    header of the data-record file has been written. *)
Definition recorded_session : World :=
  snd (parse_XML sample_fromstring (msg_CAL ++ crlf ++ msg_REC ++ crlf) sample_session).

(** Three statements as the device sends them, cut inside the first and
    inside the third. *)
Definition chunks_cut_inside : list string :=
  [ "<SET ID='X' STA";
    "TE='1' />" ++ crlf ++ msg_CAL ++ crlf ++ "<REC FPO";
    "GX='0.4' FPOGY='0.6' />" ++ crlf ].

(** One statement whose attribute value holds a '>', cut right after it. *)
Definition msg_quoted_GT : string := "<SET ID='>' />".
Definition chunks_cut_after_inner_GT : list string :=
  [ "<SET ID='>"; "' />" ++ crlf ].

(** Two statements, cut between the carriage return and the newline that
    end the first. *)
Definition chunks_cut_in_line_end : list string :=
  [ msg_SET ++ String CR EmptyString; nl ++ msg_REC ++ crlf ].

(** * Proofs *)

(** ** Strings *)

Lemma append_empty_r (s : string) : s ++ "" = s.
Proof. induction s as [|c s IH]; simpl; [reflexivity | now rewrite IH]. Qed.

Lemma append_assoc (a b c : string) : (a ++ b) ++ c = a ++ (b ++ c).
Proof. induction a as [|x a IH]; simpl; [reflexivity | now rewrite IH]. Qed.

Lemma append_eq_empty (a b : string) : a ++ b = "" -> a = "" /\ b = "".
Proof. destruct a; simpl; intros H; [auto | discriminate]. Qed.

(** Two ways of cutting the same text: one cut point lies before the other. *)
Lemma append_eq_append (a b c d : string) :
  a ++ b = c ++ d ->
  (exists e, c = a ++ e /\ b = e ++ d) \/ (exists e, a = c ++ e /\ d = e ++ b).
Proof.
  revert c; induction a as [|x a IH]; intros c H; simpl in H.
  - left; exists c; auto.
  - destruct c as [|y c]; simpl in H.
    + right; exists (String x a); auto.
    + injection H as -> H.
      destruct (IH _ H) as [[e [-> ->]] | [e [-> ->]]];
        [left | right]; exists e; auto.
Qed.

Lemma last_char_append (a b : string) :
  b <> "" -> last_char (a ++ b) = last_char b.
Proof.
  intros Hb; induction a as [|x a IH]; simpl; [reflexivity|].
  rewrite IH. destruct (a ++ b) eqn:E; [|reflexivity].
  apply append_eq_empty in E; tauto.
Qed.

Lemma last_char_snoc (a : string) (c : ascii) :
  last_char (a ++ String c "") = Some c.
Proof. rewrite last_char_append; [reflexivity | discriminate]. Qed.

Lemma last_char_nonempty (s : string) :
  s <> "" -> exists c, last_char s = Some c.
Proof.
  induction s as [|x s IH]; intros H; [congruence|].
  destruct s as [|y s]; [exists x; reflexivity|].
  destruct IH as [c Hc]; [discriminate|]. exists c. exact Hc.
Qed.

Lemma ends_with_GT_append (a b : string) :
  b <> "" -> ends_with_GT (a ++ b) = ends_with_GT b.
Proof. intros H; unfold ends_with_GT; now rewrite last_char_append. Qed.

Lemma ends_with_GT_nonempty (s : string) : ends_with_GT s = true -> s <> "".
Proof. intros H ->; discriminate. Qed.

Lemma plain_append (a b : string) : plain (a ++ b) = plain a && plain b.
Proof.
  induction a as [|x a IH]; simpl; [reflexivity|].
  rewrite IH, !andb_assoc; reflexivity.
Qed.

Lemma plain_nl_false (a b : string) : plain (a ++ nl ++ b) = false.
Proof.
  rewrite plain_append; simpl. apply andb_false_r.
Qed.

Lemma remove_CR_append (a b : string) :
  remove_CR (a ++ b) = remove_CR a ++ remove_CR b.
Proof.
  induction a as [|x a IH]; simpl; [reflexivity|].
  destruct (is_CR x); simpl; now rewrite IH.
Qed.

Lemma rx_join (chunks : list string) : rx (join chunks) = join (map rx chunks).
Proof.
  induction chunks as [|c cs IH]; simpl; [reflexivity|].
  unfold rx in *; now rewrite remove_CR_append, IH.
Qed.

(** ** splitlines *)

Lemma splitlines_plain (s : string) :
  plain s = true -> s <> "" -> splitlines s = [s].
Proof.
  induction s as [|c s IH]; intros Hp Hne; [congruence|].
  simpl in Hp. apply andb_true_iff in Hp as [Hc Hs].
  apply andb_true_iff in Hc as [Hlf Hcr].
  apply negb_true_iff in Hlf, Hcr.
  simpl; rewrite Hlf, Hcr.
  destruct s as [|d s]; [reflexivity|].
  rewrite IH; [reflexivity | assumption | discriminate].
Qed.

Lemma splitlines_line (l r : string) :
  plain l = true -> splitlines (l ++ nl ++ r) = l :: splitlines r.
Proof.
  induction l as [|c l IH]; intros Hp; [reflexivity|].
  simpl in Hp. apply andb_true_iff in Hp as [Hc Hl].
  apply andb_true_iff in Hc as [Hlf Hcr].
  apply negb_true_iff in Hlf, Hcr.
  change ((String c l ++ nl ++ r)) with (String c (l ++ nl ++ r)).
  cbn [splitlines]. rewrite Hlf, Hcr, (IH Hl). reflexivity.
Qed.

Lemma splitlines_nonempty (s : string) : s <> "" -> splitlines s <> [].
Proof.
  destruct s as [|c s]; [congruence|]; intros _; simpl.
  destruct (is_LF c); [discriminate|].
  destruct (is_CR c).
  - destruct s as [|d s]; [discriminate|]. destruct (is_LF d); discriminate.
  - destruct (splitlines s); discriminate.
Qed.

(** ** The loop of fill_buffer *)

(** The loop only ever appends to [line_buffer]. *)
Lemma for_lines_buffer (lines buf ov : list string) :
  for_lines lines buf ov =
  (match fst (for_lines lines [] ov) with
   | Ok out => Ok (buf ++ out)%list
   | Raise e => Raise e
   end, snd (for_lines lines [] ov)).
Proof.
  revert buf ov; induction lines as [|l ls IH]; intros buf ov; simpl.
  - now rewrite app_nil_r.
  - destruct (last_char l) as [c|]; [|reflexivity].
    destruct (Ascii.eqb c GT).
    + rewrite (IH (buf ++ [l])%list), (IH [l]).
      destruct (fst (for_lines ls [] ov)); simpl; [|reflexivity].
      now rewrite <- app_assoc.
    + apply IH.
Qed.

(** When the loop completes, it has emitted the fragments that end in '>'
    and nothing else. *)
Lemma for_lines_emitted (lines buf ov out ov' : list string) :
  for_lines lines buf ov = (Ok out, ov') ->
  out = (buf ++ filter ends_with_GT lines)%list.
Proof.
  revert buf ov; induction lines as [|l ls IH]; intros buf ov H; simpl in *.
  - injection H as <- _. now rewrite app_nil_r.
  - unfold ends_with_GT at 1.
    destruct (last_char l) as [c|]; [|discriminate].
    destruct (Ascii.eqb c GT).
    + apply IH in H. rewrite H, <- app_assoc. reflexivity.
    + apply IH in H. exact H.
Qed.

(** When the loop completes and its last fragment is unterminated, that
    fragment is the new overflow. *)
Lemma for_lines_tail (init : list string) (t : string) (buf ov out ov' : list string) :
  for_lines (init ++ [t])%list buf ov = (Ok out, ov') ->
  ends_with_GT t = false ->
  ov' = [t].
Proof.
  revert buf ov; induction init as [|l ls IH]; intros buf ov H Ht; simpl in H.
  - unfold ends_with_GT in Ht.
    destruct (last_char t) as [c|]; [|discriminate].
    rewrite Ht in H. injection H as _ <-. reflexivity.
  - destruct (last_char l) as [c|]; [|discriminate].
    destruct (Ascii.eqb c GT); eapply IH; eauto.
Qed.

(** With no empty fragment the loop completes. *)
Lemma for_lines_completes (lines buf ov : list string) :
  forallb (fun l => negb (String.eqb l "")) lines = true ->
  exists ov', for_lines lines buf ov = (Ok (buf ++ filter ends_with_GT lines)%list, ov').
Proof.
  revert buf ov; induction lines as [|l ls IH]; intros buf ov H; simpl in *.
  - exists ov. now rewrite app_nil_r.
  - apply andb_true_iff in H as [Hl Hls].
    apply negb_true_iff, String.eqb_neq in Hl.
    destruct (last_char_nonempty l Hl) as [c Hc].
    unfold ends_with_GT at 1. rewrite Hc.
    destruct (Ascii.eqb c GT).
    + destruct (IH (buf ++ [l])%list ov Hls) as [ov' E].
      exists ov'. rewrite E, <- app_assoc. reflexivity.
    + apply IH; assumption.
Qed.

(** ** Reassembly of a well-formed stream *)

Lemma terminated_message_inv (m : string) :
  terminated_message m = true ->
  plain m = true /\ ends_with_GT m = true /\ m <> "".
Proof.
  unfold terminated_message; intros H.
  apply andb_true_iff in H as [Hp He].
  repeat split; auto using ends_with_GT_nonempty.
Qed.

Lemma overflow_of_nonempty (p : string) : p <> "" -> overflow_of p = [p].
Proof. destruct p; [congruence | reflexivity]. Qed.

(** A text without line ends that is a whole number of messages is empty. *)
Lemma plain_wire (p : string) (msgs : list string) :
  plain p = true -> p = wire msgs -> p = "" /\ msgs = [].
Proof.
  intros Hp ->. destruct msgs as [|m ms]; [auto|].
  cbn [wire] in Hp. rewrite plain_nl_false in Hp. discriminate.
Qed.

(** Scanning a piece [c] of the stream that starts at a message boundary:
    the messages that end inside [c] are emitted, and what is left of [c]
    is the beginning [p] of the next message. *)
Lemma for_lines_wire (msgs : list string) :
  forallb terminated_message msgs = true ->
  forall c R buf,
    c ++ R = wire msgs ->
    ends_with_GT c = false ->
    exists out rest p,
      msgs = (out ++ rest)%list /\ p ++ R = wire rest /\
      plain p = true /\ ends_with_GT p = false /\
      for_lines (splitlines c) buf [] = (Ok (buf ++ out)%list, overflow_of p).
Proof.
  induction msgs as [|m ms IH]; intros Hall c R buf Heq Hc.
  - simpl in Heq. apply append_eq_empty in Heq as [-> ->].
    exists [], [], "". simpl. rewrite app_nil_r. auto.
  - simpl in Hall. apply andb_true_iff in Hall as [Hm Hms].
    destruct (terminated_message_inv m Hm) as [Hpm [Hem Hnm]].
    simpl in Heq.
    destruct (append_eq_append _ _ _ _ Heq) as [[e [Hme HR]] | [e [Hce He]]].
    + (* [c] stops inside [m] *)
      assert (Hpc : plain c = true).
      { rewrite Hme, plain_append in Hpm. now apply andb_true_iff in Hpm. }
      destruct c as [|x c].
      * exists [], (m :: ms), "". simpl in *. rewrite app_nil_r. subst e. auto.
      * exists [], (m :: ms), (String x c).
        rewrite splitlines_plain by (auto; discriminate).
        split; [reflexivity|]. split; [exact Heq|]. split; [exact Hpc|].
        split; [exact Hc|].
        unfold ends_with_GT in Hc. cbn [for_lines].
        destruct (last_char_nonempty (String x c)) as [y Hy]; [discriminate|].
        rewrite Hy in *. rewrite Hc, app_nil_r. reflexivity.
    + (* [c] reaches beyond [m] *)
      destruct e as [|x e].
      * rewrite append_empty_r in Hce. congruence.
      * simpl in He. injection He as Hx He. subst x.
        assert (Hc' : c = m ++ nl ++ e) by (rewrite Hce; reflexivity).
        assert (Hee : ends_with_GT e = false).
        { destruct e as [|y e]; [reflexivity|].
          rewrite Hc' in Hc.
          rewrite <- append_assoc, ends_with_GT_append in Hc; [exact Hc | discriminate]. }
        destruct (IH Hms e R (buf ++ [m])%list (eq_sym He) Hee)
          as [out [rest [p [Hsplit [HpR [Hpp [Hep Hfor]]]]]]].
        exists (m :: out), rest, p.
        rewrite Hc', splitlines_line by assumption.
        cbn [for_lines]. unfold ends_with_GT in Hem.
        destruct (last_char m) as [y|]; [|discriminate].
        rewrite Hem, Hfor, <- app_assoc. simpl.
        rewrite Hsplit. auto.
Qed.

(** One call of [fill_buffer] on the next chunk of the stream, whatever
    text [p] is pending. *)
Lemma fill_buffer_wire (msgs : list string) (p recv R : string) :
  forallb terminated_message msgs = true ->
  p ++ rx recv ++ R = wire msgs ->
  plain p = true ->
  ends_with_GT p = false ->
  cut_inside recv = true ->
  exists out rest p',
    msgs = (out ++ rest)%list /\ p' ++ R = wire rest /\
    plain p' = true /\ ends_with_GT p' = false /\
    fill_buffer_from (overflow_of p) recv = (Ok out, overflow_of p').
Proof.
  intros Hall Heq Hpp Hep Hcut.
  unfold cut_inside in Hcut. apply andb_true_iff in Hcut as [Hne Hec].
  apply negb_true_iff in Hne, Hec. apply String.eqb_neq in Hne.
  unfold fill_buffer_from. set (c := rx recv) in *. cbv zeta.
  destruct p as [|x p].
  - (* nothing pending *)
    simpl in Heq. simpl overflow_of.
    destruct (for_lines_wire msgs Hall c R [] Heq Hec)
      as [out [rest [p' H]]].
    exists out, rest, p'. exact H.
  - set (q := String x p) in *. change (overflow_of q) with [q].
    destruct msgs as [|m ms]; [discriminate|].
    simpl in Hall. apply andb_true_iff in Hall as [Hm Hms].
    destruct (terminated_message_inv m Hm) as [Hpm [Hem Hnm]].
    cbn [wire] in Heq.
    destruct (append_eq_append _ _ _ _ Heq) as [[e [Hme HR]] | [e [Hqe He]]].
    + destruct (append_eq_append _ _ _ _ HR) as [[e2 [He2 HR2]] | [e2 [Hce He2]]].
      * (* the chunk stops inside [m] *)
        assert (Hpc : plain c = true).
        { rewrite Hme, He2, !plain_append in Hpm.
          apply andb_true_iff in Hpm as [_ Hpm].
          now apply andb_true_iff in Hpm. }
        rewrite splitlines_plain by assumption.
        exists [], (m :: ms), (q ++ c).
        assert (Hqc : ends_with_GT (q ++ c) = false)
          by (rewrite ends_with_GT_append; assumption).
        split; [reflexivity|]. split; [now rewrite append_assoc|].
        split; [rewrite plain_append, Hpp, Hpc; reflexivity|].
        split; [exact Hqc|].
        cbn [for_lines]. unfold ends_with_GT in Hqc.
        destruct (last_char_nonempty (q ++ c)) as [y Hy]; [discriminate|].
        rewrite Hy in *. rewrite Hqc. reflexivity.
      * (* the chunk completes [m] and goes on *)
        destruct e2 as [|y e2].
        { rewrite append_empty_r in Hce. subst e.
          rewrite Hme, ends_with_GT_append in Hem by assumption. congruence. }
        simpl in He2. injection He2 as Hy He2. subst y.
        assert (Hc' : c = e ++ nl ++ e2) by (rewrite Hce; reflexivity).
        assert (Hpe : plain e = true).
        { rewrite Hme, plain_append in Hpm. now apply andb_true_iff in Hpm. }
        assert (Hee : ends_with_GT e2 = false).
        { destruct e2 as [|z e2]; [reflexivity|].
          rewrite Hc' in Hec.
          rewrite <- append_assoc, ends_with_GT_append in Hec; [exact Hec | discriminate]. }
        destruct (for_lines_wire ms Hms e2 R [m] (eq_sym He2) Hee)
          as [out [rest [p' [Hsplit [HpR [Hpp' [Hep' Hfor]]]]]]].
        exists (m :: out), rest, p'.
        rewrite Hc', splitlines_line by assumption.
        rewrite <- Hme. cbn [for_lines]. unfold ends_with_GT in Hem.
        destruct (last_char m) as [z|]; [|discriminate].
        rewrite Hem. cbn [app]. rewrite Hfor, Hsplit. auto.
    + (* the pending text would hold a whole message *)
      destruct e as [|y e].
      * rewrite append_empty_r in Hqe. congruence.
      * simpl in He. injection He as Hy He. subst y.
        change (String LF e) with (nl ++ e) in Hqe.
        rewrite Hqe, plain_nl_false in Hpp. discriminate.
Qed.

Lemma set_line_overflow_twice (a b : list string) (w : World) :
  set_line_overflow a (set_line_overflow b w) = set_line_overflow a w.
Proof. reflexivity. Qed.

Lemma set_line_overflow_same (w : World) :
  set_line_overflow (line_overflow w) w = w.
Proof. destruct w; reflexivity. Qed.

Lemma set_line_overflow_empty (w : World) :
  line_overflow w = [] -> set_line_overflow [] w = w.
Proof. intros H. rewrite <- H. apply set_line_overflow_same. Qed.

(** Chunk after chunk, from any point of the stream. *)
Lemma feed_wire (chunks : list string) :
  forall msgs p w,
    forallb terminated_message msgs = true ->
    p ++ join (map rx chunks) = wire msgs ->
    plain p = true ->
    ends_with_GT p = false ->
    forallb cut_inside chunks = true ->
    line_overflow w = overflow_of p ->
    feed chunks w = (Ok msgs, set_line_overflow [] w).
Proof.
  induction chunks as [|c cs IH]; intros msgs p w Hall Heq Hpp Hep Hcut Hov.
  - simpl in Heq. rewrite append_empty_r in Heq.
    destruct (plain_wire p msgs Hpp Heq) as [-> ->].
    simpl in Hov. rewrite (set_line_overflow_empty w Hov). reflexivity.
  - simpl in Hcut. apply andb_true_iff in Hcut as [Hc Hcs].
    cbn [map join] in Heq.
    destruct (fill_buffer_wire msgs p c _ Hall Heq Hpp Hep Hc)
      as [out [rest [p' [Hsplit [HpR [Hpp' [Hep' Hfill]]]]]]].
    assert (Hrest : forallb terminated_message rest = true).
    { rewrite Hsplit, forallb_app in Hall. now apply andb_true_iff in Hall. }
    cbn [feed]. unfold bind at 1. unfold fill_buffer. rewrite Hov, Hfill.
    unfold bind at 1.
    rewrite (IH rest p' (set_line_overflow (overflow_of p') w) Hrest HpR Hpp' Hep' Hcs eq_refl).
    unfold ret. rewrite set_line_overflow_twice, Hsplit. reflexivity.
Qed.

Lemma ends_with_GT_wire (msgs : list string) : ends_with_GT (wire msgs) = false.
Proof.
  induction msgs as [|m ms IH]; [reflexivity|].
  cbn [wire]. rewrite ends_with_GT_append by discriminate.
  destruct (wire ms) as [|x r]; [reflexivity|].
  change (nl ++ String x r) with (String LF (String x r)).
  exact IH.
Qed.

(** Where the reassembly works: when no chunk is empty and no chunk stops
    right after a '>' (carriage returns aside), the chunks of a stream of
    terminator-closed, newline-separated messages give, fed one at a time
    through [fill_buffer], exactly the messages in order, with nothing left
    pending; the whole stream fed as one chunk gives the same. *)
Theorem reassembly_of_inside_cuts (chunks msgs : list string) (w : World) :
  forallb terminated_message msgs = true ->
  rx (join chunks) = wire msgs ->
  forallb cut_inside chunks = true ->
  line_overflow w = [] ->
  feed chunks w = (Ok msgs, w) /\
  fill_buffer (join chunks) w = (Ok msgs, w).
Proof.
  intros Hall Heq Hcut Hov. split.
  - rewrite (feed_wire chunks msgs "" w Hall); auto.
    + rewrite (set_line_overflow_empty w Hov). reflexivity.
    + simpl. rewrite <- rx_join. exact Heq.
  - unfold fill_buffer, fill_buffer_from. rewrite Hov, Heq.
    pose proof (ends_with_GT_wire msgs) as Hw.
    destruct (for_lines_wire msgs Hall (wire msgs) "" [] (append_empty_r _) Hw)
      as [out [rest [p [Hsplit [HpR [Hpp [Hep Hfor]]]]]]].
    rewrite append_empty_r in HpR.
    destruct (plain_wire p rest Hpp HpR) as [-> ->].
    rewrite app_nil_r in Hsplit. subst out.
    rewrite Hfor. simpl. rewrite (set_line_overflow_empty w Hov). reflexivity.
Qed.

Lemma reassembly_of_inside_cuts_witness :
  feed chunks_cut_inside module_init = (Ok [msg_SET; msg_CAL; msg_REC], module_init) /\
  fill_buffer (join chunks_cut_inside) module_init
    = (Ok [msg_SET; msg_CAL; msg_REC], module_init).
Proof.
  apply (reassembly_of_inside_cuts chunks_cut_inside [msg_SET; msg_CAL; msg_REC]);
    reflexivity.
Defined.

(** Two cuts right after a '>', on the sample statements.  Cut after a '>'
    inside a message, the two halves come out as two messages; cut after
    the '>' that closes a message, the next call raises IndexError on the
    empty fragment in front of the newline. *)
Lemma reassembly_fails_when_cut_after_GT :
  (forallb terminated_message [msg_quoted_GT] = true /\
   rx (join chunks_cut_after_inner_GT) = wire [msg_quoted_GT] /\
   fst (fill_buffer (join chunks_cut_after_inner_GT) module_init) = Ok [msg_quoted_GT] /\
   fst (feed chunks_cut_after_inner_GT module_init) = Ok ["<SET ID='>"; "' />"] /\
   fst (feed chunks_cut_after_inner_GT module_init)
     <> fst (fill_buffer (join chunks_cut_after_inner_GT) module_init)) /\
  (forallb terminated_message [msg_SET; msg_REC] = true /\
   rx (join chunks_cut_in_line_end) = wire [msg_SET; msg_REC] /\
   fst (fill_buffer (join chunks_cut_in_line_end) module_init) = Ok [msg_SET; msg_REC] /\
   fst (feed chunks_cut_in_line_end module_init) = Raise IndexError /\
   fst (feed chunks_cut_in_line_end module_init)
     <> fst (fill_buffer (join chunks_cut_in_line_end) module_init)).
Proof.
  split; (split; [|split; [|split; [|split]]]);
    try (vm_compute; reflexivity); vm_compute; discriminate.
Qed.

(** C4: the loop of [fill_buffer] indexes the last character of every
    fragment, and an empty fragment makes that raise IndexError: so it is
    with two separators in a row, and with a chunk that starts with a
    newline while nothing is pending. *)
Theorem empty_fragment_raises_IndexError :
  (forall more buf ov, for_lines ("" :: more) buf ov = (Raise IndexError, ov)) /\
  fst (fill_buffer (msg_SET ++ crlf ++ crlf ++ msg_REC ++ crlf) module_init)
    = Raise IndexError /\
  fst (fill_buffer (nl ++ msg_REC ++ crlf) module_init) = Raise IndexError.
Proof.
  split; [reflexivity|]. split; reflexivity.
Qed.

(** ** The pending tail *)

(** Whatever [fill_buffer] leaves in [line_overflow] is unterminated. *)
Lemma for_lines_overflow_unterminated (lines buf ov : list string) :
  forallb (fun p => negb (ends_with_GT p)) ov = true ->
  forallb (fun p => negb (ends_with_GT p)) (snd (for_lines lines buf ov)) = true.
Proof.
  revert buf ov; induction lines as [|l ls IH]; intros buf ov H; simpl; [exact H|].
  destruct (last_char l) as [c|] eqn:E; [|exact H].
  destruct (Ascii.eqb c GT) eqn:Ec; [apply IH; exact H|].
  apply IH. simpl. unfold ends_with_GT. rewrite E, Ec. reflexivity.
Qed.

Lemma fill_buffer_overflow_unterminated (ov : list string) (recv : string) :
  forallb (fun p => negb (ends_with_GT p)) ov = true ->
  forallb (fun p => negb (ends_with_GT p)) (snd (fill_buffer_from ov recv)) = true.
Proof.
  intros H. unfold fill_buffer_from.
  destruct ov as [|p ov']; [apply for_lines_overflow_unterminated; exact H|].
  destruct (splitlines (rx recv)); [exact H|].
  apply for_lines_overflow_unterminated. reflexivity.
Qed.

Lemma fill_buffer_from_joined (ov : list string) (recv : string) (buf ov' : list string) :
  fill_buffer_from ov recv = (Ok buf, ov') ->
  for_lines (joined_lines ov (splitlines (rx recv))) [] [] = (Ok buf, ov').
Proof.
  unfold fill_buffer_from, joined_lines.
  destruct ov as [|p ov0]; [auto|].
  destruct (splitlines (rx recv)); [discriminate | auto].
Qed.

(** The pending tail when both calls return: let the last fragment [t] of a
    chunk not end in '>' and let the call return.  Then the fragment (with what was pending in front of it,
    if it is also the first) is not in the buffer returned and is the one
    entry of [line_overflow].  The next call puts it in front of its first
    fragment and starts its loop with [line_overflow] empty; when that join
    ends in '>', it is emitted once, at the head of the buffer, followed
    only by the terminated fragments of the new chunk. *)
Theorem tail_kept_then_joined
    (ov : list string) (recv1 recv2 : string)
    (init : list string) (t first : string) (others buf1 ov1 : list string) :
  forallb (fun p => negb (ends_with_GT p)) ov = true ->
  splitlines (rx recv1) = (init ++ [t])%list ->
  ends_with_GT t = false ->
  fill_buffer_from ov recv1 = (Ok buf1, ov1) ->
  splitlines (rx recv2) = first :: others ->
  let kept := match init, ov with
              | [], pending :: _ => pending ++ t
              | _, _ => t
              end in
  ov1 = [kept] /\
  count_occ string_dec buf1 kept = 0 /\
  fill_buffer_from ov1 recv2 = for_lines ((kept ++ first) :: others) [] [] /\
  (ends_with_GT (kept ++ first) = true ->
   forallb (fun l => negb (String.eqb l "")) others = true ->
   exists ov2,
     fill_buffer_from ov1 recv2
       = (Ok ((kept ++ first) :: filter ends_with_GT others), ov2)).
Proof.
  intros Hov Hsplit Ht Hfill Hsplit2 kept.
  apply fill_buffer_from_joined in Hfill. rewrite Hsplit in Hfill.
  assert (Hj : exists init', joined_lines ov (init ++ [t])%list = (init' ++ [kept])%list
                             /\ ends_with_GT kept = false).
  { subst kept. destruct init as [|i init]; destruct ov as [|p ov0]; simpl.
    - exists []; auto.
    - exists []; split; [reflexivity|].
      destruct t as [|x t].
      + rewrite append_empty_r. simpl in Hov.
        apply andb_true_iff in Hov as [Hp _]. now apply negb_true_iff in Hp.
      + rewrite ends_with_GT_append; [exact Ht | discriminate].
    - exists (i :: init); auto.
    - exists ((p ++ i) :: init); auto. }
  destruct Hj as [init' [Hj Hk]]. rewrite Hj in Hfill.
  assert (Hov1 : ov1 = [kept]) by (eapply for_lines_tail; eauto).
  split; [exact Hov1|]. split.
  - apply count_occ_not_In. intros Hin.
    apply for_lines_emitted in Hfill. simpl in Hfill. rewrite Hfill in Hin.
    apply filter_In in Hin as [_ Hin]. congruence.
  - rewrite Hov1. unfold fill_buffer_from. rewrite Hsplit2. cbv zeta.
    split; [reflexivity|].
    intros Hend Hne. cbn [for_lines].
    unfold ends_with_GT in Hend.
    destruct (last_char (kept ++ first)) as [c|]; [|discriminate].
    rewrite Hend. cbn [app].
    destruct (for_lines_completes others [(kept ++ first)%string] [] Hne) as [ov2 E].
    exists ov2. rewrite E. reflexivity.
Qed.

Lemma tail_kept_then_joined_witness :
  fill_buffer_from [] (msg_SET ++ crlf ++ "<REC FPO") = (Ok [msg_SET], ["<REC FPO"]) /\
  count_occ string_dec [msg_SET] "<REC FPO" = 0 /\
  exists ov2,
    fill_buffer_from ["<REC FPO"] ("GX='0.4' FPOGY='0.6' />" ++ crlf ++ msg_REC2 ++ crlf)
      = (Ok [msg_REC; msg_REC2], ov2).
Proof.
  destruct (tail_kept_then_joined [] (msg_SET ++ crlf ++ "<REC FPO")
              ("GX='0.4' FPOGY='0.6' />" ++ crlf ++ msg_REC2 ++ crlf)
              [msg_SET] "<REC FPO" "GX='0.4' FPOGY='0.6' />" [msg_REC2]
              [msg_SET] ["<REC FPO"]
              eq_refl eq_refl eq_refl eq_refl eq_refl)
    as [H1 [H2 [H3 H4]]].
  split; [reflexivity|]. split; [exact H2|].
  exact (H4 eq_refl eq_refl).
Defined.

(** ** The interpreter on a live session

    The three loops that write cells, on a world whose sink is open. *)

Lemma header_loop (keys : list string) :
  forall sc tr lo cal kr p wr co xo tk rt,
    for_each keys
      (fun key => file_write h_record (key ++ ",") ;; modify (set_keys_received true))
      (mkWorld sc tr lo cal kr (Some (mkfile p false wr)) co xo tk rt)
    = (Ok tt,
       mkWorld sc tr lo cal (kr || match keys with [] => false | _ :: _ => true end)
               (Some (mkfile p false (wr ++ map (fun k => (k ++ ",")%string) keys)%list))
               co xo tk rt).
Proof.
  induction keys as [|k ks IH]; intros; simpl.
  - now rewrite orb_false_r, app_nil_r.
  - unfold bind at 1. unfold bind at 1. unfold file_write at 1. simpl.
    unfold set_keys_received, set_record_output; simpl.
    rewrite IH. rewrite orb_true_r, <- app_assoc. reflexivity.
Qed.

Lemma record_loop (cells : list string) :
  forall sc tr lo cal kr p wr co xo tk rt,
    for_each cells (fun c => file_write h_record (c ++ ","))
      (mkWorld sc tr lo cal kr (Some (mkfile p false wr)) co xo tk rt)
    = (Ok tt,
       mkWorld sc tr lo cal kr
               (Some (mkfile p false (wr ++ map (fun k => (k ++ ",")%string) cells)%list))
               co xo tk rt).
Proof.
  induction cells as [|k ks IH]; intros; simpl.
  - now rewrite app_nil_r.
  - unfold bind at 1. unfold file_write at 1. simpl.
    unfold set_record_output; simpl.
    rewrite IH, <- app_assoc. reflexivity.
Qed.

Lemma calibration_loop (cells : list string) :
  forall sc tr lo cal kr ro p wr xo tk rt,
    for_each cells (fun c => file_write h_calibration (c ++ ","))
      (mkWorld sc tr lo cal kr ro (Some (mkfile p false wr)) xo tk rt)
    = (Ok tt,
       mkWorld sc tr lo cal kr ro
               (Some (mkfile p false (wr ++ map (fun k => (k ++ ",")%string) cells)%list))
               xo tk rt).
Proof.
  induction cells as [|k ks IH]; intros; simpl.
  - now rewrite app_nil_r.
  - unfold bind at 1. unfold file_write at 1. simpl.
    unfold set_calibration_output; simpl.
    rewrite IH, <- app_assoc. reflexivity.
Qed.

(** [dict['ID']] cannot raise KeyError after ["ID" in keys]. *)
Lemma mem_key_dict_get (k : string) (d : list (string * string)) :
  mem_key k (map fst d) = true -> exists v, dict_get k d = Some v.
Proof.
  induction d as [|[k' v'] d IH]; simpl; [discriminate|].
  destruct (String.eqb k k'); [exists v'; reflexivity | exact IH].
Qed.

(** The three blocks of the loop body on a live session: each returns, and
    changes only what it names. *)
Lemma note_calibration_live (e : Element) tr lo cal kr ro co xo tk rt :
  note_calibration e (mkWorld true tr lo cal kr ro co xo tk rt)
  = (Ok tt,
     mkWorld true
       (tr ++ if is_calib_result e then [(hide_calibration ++ crlf)%string] else [])%list
       lo (cal || is_calib_result e) kr ro co xo tk rt).
Proof.
  unfold note_calibration, is_calib_result. cbv zeta.
  destruct (mem_key "ID" (el_keys e)) eqn:Hm; simpl.
  - destruct (mem_key_dict_get _ _ Hm) as [v Hv]. rewrite Hv.
    destruct (String.eqb v "CALIB_RESULT").
    + rewrite orb_true_r. reflexivity.
    + unfold ret. now rewrite app_nil_r, orb_false_r.
  - unfold ret. now rewrite app_nil_r, orb_false_r.
Qed.

Lemma write_calibration_live (e : Element) sc tr lo cal kr ro p wr xo tk rt :
  write_calibration e (mkWorld sc tr lo cal kr ro (Some (mkfile p false wr)) xo tk rt)
  = (Ok tt,
     mkWorld sc tr lo cal kr ro
       (Some (mkfile p false
          (wr ++ if is_CAL e then row (el_keys e) ++ row (el_values e) else [])%list))
       xo tk rt).
Proof.
  unfold write_calibration, is_CAL. cbv zeta.
  destruct (String.eqb (tag e) "CAL").
  - unfold bind at 1. rewrite calibration_loop.
    unfold bind at 1. unfold file_write at 1. simpl.
    unfold bind at 1. unfold set_calibration_output at 1. simpl. rewrite calibration_loop.
    unfold bind, file_write, file_flush. simpl. unfold set_calibration_output. simpl.
    unfold row. rewrite <- !app_assoc. reflexivity.
  - unfold ret. now rewrite app_nil_r.
Qed.

Lemma write_record_live (e : Element) sc tr lo cal kr p wr co xo tk rt :
  write_record e (mkWorld sc tr lo cal kr (Some (mkfile p false wr)) co xo tk rt)
  = (Ok tt,
     mkWorld sc tr lo cal (kr || (cal && is_REC e && has_attributes e))
       (Some (mkfile p false
          (wr ++ if cal && is_REC e
                 then (if kr then [] else row (el_keys e)) ++ row (el_values e)
                 else [])%list))
       co xo tk rt).
Proof.
  unfold write_record, is_REC. cbv zeta. unfold bind at 1, gets at 1. simpl.
  destruct cal; simpl; [|unfold ret; now rewrite app_nil_r, orb_false_r].
  destruct (String.eqb (tag e) "REC"); simpl;
    [|unfold ret; now rewrite app_nil_r, orb_false_r].
  unfold bind at 1, gets at 1. simpl.
  destruct kr; simpl.
  - unfold bind at 1, ret at 1. unfold bind at 1. rewrite record_loop.
    unfold bind, file_write, file_flush. simpl. unfold set_record_output. simpl.
    unfold row. rewrite <- !app_assoc. reflexivity.
  - unfold bind at 1. unfold bind at 1. rewrite header_loop.
    unfold file_write at 1. simpl. unfold set_record_output at 1. simpl.
    unfold bind at 1. rewrite record_loop.
    unfold bind, file_write, file_flush. simpl. unfold set_record_output. simpl.
    unfold row, has_attributes, el_keys. rewrite <- !app_assoc. simpl.
    destruct (attrib e); reflexivity.
Qed.

Section Interpreter.

Variable fromstring : string -> option Element.

(** One message that parses, in a live session: what each sink and the
    socket receive, and what becomes of the two flags. *)
Lemma interpret_live (XML : string) (e : Element) (w : World) :
  session_live w = true ->
  fromstring XML = Some e ->
  exists w',
    interpret fromstring XML w = (Ok tt, w') /\
    session_live w' = true /\
    calibrated w' = calibrated w || is_calib_result e /\
    keys_received w' =
      keys_received w || (calibrated w' && is_REC e && has_attributes e) /\
    file_written (record_output w') =
      (file_written (record_output w) ++
       if calibrated w' && is_REC e
       then (if keys_received w then [] else row (el_keys e)) ++ row (el_values e)
       else [])%list /\
    file_written (calibration_output w') =
      (file_written (calibration_output w) ++
       if is_CAL e then row (el_keys e) ++ row (el_values e) else [])%list /\
    file_written (XML_output w') = (file_written (XML_output w) ++ [XML; nl])%list /\
    transmitted w' =
      (transmitted w ++ if is_calib_result e then [(hide_calibration ++ crlf)%string] else [])%list /\
    line_overflow w' = line_overflow w.
Proof.
  intros Hlive Hparse.
  destruct w as [sc tr lo cal kr ro co xo tk rt].
  unfold session_live in Hlive. simpl in Hlive.
  destruct sc; [|discriminate].
  destruct ro as [[rp [|] rw]|]; try discriminate.
  destruct co as [[cp [|] cw]|]; try discriminate.
  destruct xo as [[xp [|] xw]|]; try discriminate.
  clear Hlive.
  unfold interpret, xml_fromstring. rewrite Hparse.
  unfold bind at 1, file_write at 1. simpl.
  unfold bind at 1, file_write at 1. simpl. unfold set_XML_output. simpl.
  unfold bind at 1, ret at 1.
  unfold bind at 1. rewrite note_calibration_live.
  unfold bind at 1. rewrite write_calibration_live.
  rewrite write_record_live.
  eexists; split; [reflexivity|]. simpl.
  rewrite <- app_assoc. repeat split; reflexivity.
Qed.


(** A loop that got through [xs] goes on with [ys]. *)
Lemma for_each_app {A : Type} (xs ys : list A) (body : A -> M unit) (w w1 : World) :
  for_each xs body w = (Ok tt, w1) ->
  for_each (xs ++ ys) body w = for_each ys body w1.
Proof.
  revert w; induction xs as [|x xs IH]; intros w H; simpl in *.
  - unfold ret in H. now injection H as <-.
  - unfold bind in *. destruct (body x w) as [[[]|e] w2]; [|discriminate].
    apply IH. exact H.
Qed.

Lemma data_rows_no_header (records : list Element) :
  data_rows false records = flat_map (fun r => row (el_values r)) records.
Proof. destruct records; reflexivity. Qed.

(** The sinks and the commands sent after a run of messages that all
    parse, in a live session. *)
Lemma for_each_interpret_live (msgs : list string) :
  forall els w,
    session_live w = true ->
    parse_all fromstring msgs = Some els ->
    exists w',
      for_each msgs (interpret fromstring) w = (Ok tt, w') /\
      session_live w' = true /\
      calibrated w' = calibrated w || existsb is_calib_result els /\
      transmitted w' =
        (transmitted w ++
         repeat (hide_calibration ++ crlf)%string (List.length (filter is_calib_result els)))%list /\
      file_written (XML_output w') =
        (file_written (XML_output w) ++ flat_map (fun m => [m; nl]) msgs)%list.
Proof.
  induction msgs as [|m ms IH]; intros els w Hlive Hparse; simpl in Hparse.
  - injection Hparse as <-. exists w. simpl.
    rewrite orb_false_r, !app_nil_r. auto.
  - destruct (fromstring m) as [e|] eqn:He; [|discriminate].
    destruct (parse_all fromstring ms) as [es|] eqn:Hes; [|discriminate].
    injection Hparse as <-.
    destruct (interpret_live m e w Hlive He)
      as [w1 [Hrun [Hlive1 [Hcal [_ [_ [_ [Hxml [Htx _]]]]]]]]].
    destruct (IH es w1 Hlive1 eq_refl) as [w' [Hrun' [Hlive' [Hcal' [Htx' Hxml']]]]].
    exists w'. cbn [for_each]. unfold bind. rewrite Hrun.
    split; [exact Hrun'|]. split; [exact Hlive'|].
    split; [rewrite Hcal', Hcal; simpl; now rewrite orb_assoc|].
    split.
    + rewrite Htx', Htx. simpl. destruct (is_calib_result e); simpl.
      * rewrite <- app_assoc. reflexivity.
      * rewrite app_nil_r. reflexivity.
    + rewrite Hxml', Hxml. simpl. rewrite <- app_assoc. reflexivity.
Qed.

(** The data-record sink after a run of messages that all parse: either
    the header is already written, or every REC message has attributes. *)
Lemma for_each_interpret_records (msgs : list string) :
  forall els w,
    session_live w = true ->
    parse_all fromstring msgs = Some els ->
    keys_received w = true \/
      forallb (fun e => implb (is_REC e) (has_attributes e)) els = true ->
    exists w',
      for_each msgs (interpret fromstring) w = (Ok tt, w') /\
      session_live w' = true /\
      keys_received w' =
        keys_received w ||
        match routed_records els (calibrated w) with [] => false | _ :: _ => true end /\
      file_written (record_output w') =
        (file_written (record_output w) ++
         data_rows (negb (keys_received w)) (routed_records els (calibrated w)))%list.
Proof.
  induction msgs as [|m ms IH]; intros els w Hlive Hparse Hattr; simpl in Hparse.
  - injection Hparse as <-. exists w. simpl.
    rewrite orb_false_r, !app_nil_r. auto.
  - destruct (fromstring m) as [e|] eqn:He; [|discriminate].
    destruct (parse_all fromstring ms) as [es|] eqn:Hes; [|discriminate].
    injection Hparse as <-.
    destruct (interpret_live m e w Hlive He)
      as [w1 [Hrun [Hlive1 [Hcal [Hkeys [Hrec _]]]]]].
    cbn [for_each routed_records]. unfold bind. rewrite Hrun.
    rewrite <- Hcal.
    destruct (calibrated w1 && is_REC e) eqn:Hrouted.
    + assert (Hk1 : keys_received w1 = true).
      { rewrite Hkeys. destruct (keys_received w); [reflexivity|]. simpl.
        destruct Hattr as [Hattr | Hattr]; [discriminate|].
        simpl in Hattr. apply andb_true_iff in Hattr as [Hattr _].
        apply andb_true_iff in Hrouted as [_ Hrec']. rewrite Hrec' in *.
        simpl in Hattr. rewrite Hattr. reflexivity. }
      destruct (IH es w1 Hlive1 eq_refl (or_introl Hk1))
        as [w' [Hrun' [Hlive' [Hkeys' Hrec'']]]].
      exists w'. split; [exact Hrun'|]. split; [exact Hlive'|].
      split; [rewrite Hkeys', Hk1; now rewrite orb_true_r|].
      rewrite Hrec'', Hrec, Hk1. simpl negb. rewrite data_rows_no_header.
      cbn [data_rows flat_map].
      destruct (keys_received w); simpl; rewrite <- !app_assoc; reflexivity.
    + assert (Hk1 : keys_received w1 = keys_received w).
      { rewrite Hkeys. simpl. now rewrite orb_false_r. }
      assert (Hattr1 : keys_received w1 = true \/
                forallb (fun e => implb (is_REC e) (has_attributes e)) es = true).
      { destruct Hattr as [Hattr | Hattr]; [left; congruence|right].
        simpl in Hattr. now apply andb_true_iff in Hattr. }
      destruct (IH es w1 Hlive1 eq_refl Hattr1)
        as [w' [Hrun' [Hlive' [Hkeys' Hrec'']]]].
      exists w'. split; [exact Hrun'|]. split; [exact Hlive'|].
      split; [rewrite Hkeys', Hk1; reflexivity|].
      rewrite Hrec'', Hrec, Hk1, app_nil_r. reflexivity.
Qed.


(** ** What survives every outcome *)

Lemma preserves_ret {A : Type} (P : World -> Prop) (a : A) : preserves P (ret a).
Proof. intros w H; exact H. Qed.

Lemma preserves_raise {A : Type} (P : World -> Prop) (e : exn) :
  preserves P (@raise A e).
Proof. intros w H; exact H. Qed.

Lemma preserves_gets {A : Type} (P : World -> Prop) (f : World -> A) :
  preserves P (gets f).
Proof. intros w H; exact H. Qed.

Lemma preserves_modify (P : World -> Prop) (f : World -> World) :
  (forall w, P w -> P (f w)) -> preserves P (modify f).
Proof. intros Hf w H; apply Hf, H. Qed.

Lemma preserves_bind {A B : Type} (P : World -> Prop) (m : M A) (k : A -> M B) :
  preserves P m -> (forall a, preserves P (k a)) -> preserves P (bind m k).
Proof.
  intros Hm Hk w H. unfold bind. specialize (Hm w H).
  destruct (m w) as [[a|e] w1]; simpl in *; [apply Hk, Hm | exact Hm].
Qed.

Lemma preserves_bind_ret {A B : Type} (P : World -> Prop) (a : A) (k : A -> M B) :
  preserves P (k a) -> preserves P (bind (ret a) k).
Proof. intros H w Hw. exact (H w Hw). Qed.

Lemma preserves_bind_raise {A B : Type} (P : World -> Prop) (e : exn) (k : A -> M B) :
  preserves P (bind (raise e) k).
Proof. intros w Hw. exact Hw. Qed.

Lemma preserves_for_each {A : Type} (P : World -> Prop) (xs : list A) (body : A -> M unit) :
  (forall x, preserves P (body x)) -> preserves P (for_each xs body).
Proof.
  intros Hb; induction xs as [|x xs IH]; simpl.
  - apply preserves_ret.
  - apply preserves_bind; [apply Hb | intros _; exact IH].
Qed.

Lemma preserves_file_write (P : World -> Prop) (h : handle) (s : string) :
  (forall f w, P w -> P (h_set h f w)) -> preserves P (file_write h s).
Proof.
  intros Hs w H. unfold file_write.
  destruct (h_get h w) as [f|]; [|exact H].
  destruct (closed f); [exact H | apply Hs, H].
Qed.

Lemma preserves_file_flush (P : World -> Prop) (h : handle) :
  preserves P (file_flush h).
Proof.
  intros w H. unfold file_flush.
  destruct (h_get h w) as [f|]; [|exact H]. destruct (closed f); exact H.
Qed.

Lemma preserves_file_close (P : World -> Prop) (h : handle) :
  (forall f w, P w -> P (h_set h f w)) -> preserves P (file_close h).
Proof.
  intros Hs w H. unfold file_close.
  destruct (h_get h w) as [f|]; [apply Hs, H | exact H].
Qed.

Lemma preserves_tx (P : World -> Prop) (msg : string) :
  (forall t w, P w -> P (set_transmitted t w)) -> preserves P (tx msg).
Proof.
  intros Hs w H. unfold tx. destruct (sock_connected w); [apply Hs, H | exact H].
Qed.

Lemma preserves_fill_buffer (P : World -> Prop) (recv : string) :
  (forall o w, P w -> P (set_line_overflow o w)) -> preserves P (fill_buffer recv).
Proof.
  intros Hs w H. unfold fill_buffer.
  destruct (fill_buffer_from (line_overflow w) recv) as [r o]. apply Hs, H.
Qed.

Lemma note_calibration_preserves (P : World -> Prop) (e : Element) :
  sink_blind P ->
  (is_calib_result e = true -> forall w, P w -> P (set_calibrated true w)) ->
  preserves P (note_calibration e).
Proof.
  intros [_ [_ [_ [Htx _]]]] Hcal.
  unfold note_calibration, is_calib_result in *. cbv zeta.
  destruct (mem_key "ID" (el_keys e)); [|apply preserves_ret].
  destruct (dict_get "ID" (attrib e)) as [v|]; [|apply preserves_raise].
  destruct (String.eqb v "CALIB_RESULT"); [|apply preserves_ret].
  apply preserves_bind; [apply preserves_tx, Htx|].
  intros _. apply preserves_modify, Hcal. reflexivity.
Qed.

Lemma write_calibration_preserves (P : World -> Prop) (e : Element) :
  sink_blind P -> preserves P (write_calibration e).
Proof.
  intros [_ [Hc _]]. unfold write_calibration. cbv zeta.
  destruct (String.eqb (tag e) "CAL"); [|apply preserves_ret].
  repeat first
    [ apply preserves_bind; [|intros _]
    | apply preserves_for_each; intros ?
    | apply preserves_file_write, Hc
    | apply preserves_file_flush ].
Qed.

Lemma write_record_preserves (P : World -> Prop) (e : Element) :
  sink_blind P ->
  (forall w, P w -> P (set_keys_received true w)) ->
  preserves P (write_record e).
Proof.
  intros [_ [_ [Hr _]]] Hk. unfold write_record. cbv zeta.
  apply preserves_bind; [apply preserves_gets|]. intros c.
  destruct c; [|apply preserves_ret].
  destruct (String.eqb (tag e) "REC"); [|apply preserves_ret].
  apply preserves_bind; [apply preserves_gets|]. intros k.
  apply preserves_bind.
  - destruct (negb k); [|apply preserves_ret].
    apply preserves_bind; [|intros _; apply preserves_file_write, Hr].
    apply preserves_for_each; intros key.
    apply preserves_bind; [apply preserves_file_write, Hr|].
    intros _; apply preserves_modify, Hk.
  - intros _.
    repeat first
      [ apply preserves_bind; [|intros _]
      | apply preserves_for_each; intros ?
      | apply preserves_file_write, Hr
      | apply preserves_file_flush ].
Qed.

Lemma interpret_preserves (P : World -> Prop) (XML : string) :
  sink_blind P ->
  (forall e, fromstring XML = Some e -> is_calib_result e = true ->
             forall w, P w -> P (set_calibrated true w)) ->
  (forall w, P w -> P (set_keys_received true w)) ->
  preserves P (interpret fromstring XML).
Proof.
  intros Hblind Hcal Hk. pose proof Hblind as [Hx _].
  unfold interpret, xml_fromstring.
  apply preserves_bind; [apply preserves_file_write, Hx|]. intros _.
  apply preserves_bind; [apply preserves_file_write, Hx|]. intros _.
  destruct (fromstring XML) as [e|] eqn:He.
  - apply preserves_bind_ret.
    apply preserves_bind;
      [apply note_calibration_preserves; [exact Hblind | exact (Hcal e eq_refl)]|].
    intros _.
    apply preserves_bind; [apply write_calibration_preserves, Hblind|].
    intros _. apply write_record_preserves; assumption.
  - apply preserves_bind_raise.
Qed.

Lemma sink_blind_calibrated (b : bool) : sink_blind (fun w => calibrated w = b).
Proof. repeat split; intros; assumption. Qed.

Lemma sink_blind_keys_received (b : bool) : sink_blind (fun w => keys_received w = b).
Proof. repeat split; intros; assumption. Qed.

Lemma parse_XML_preserves (P : World -> Prop) (recv : string) :
  sink_blind P ->
  (forall w, P w -> P (set_calibrated true w)) ->
  (forall w, P w -> P (set_keys_received true w)) ->
  preserves P (parse_XML fromstring recv).
Proof.
  intros Hblind Hcal Hk. unfold parse_XML.
  apply preserves_bind.
  - apply preserves_fill_buffer. apply Hblind.
  - intros buf. apply preserves_for_each. intros XML.
    apply interpret_preserves; auto.
Qed.

Lemma run_loop_preserves (P : World -> Prop) (inputs : list (string * bool)) :
  sink_blind P ->
  (forall w, P w -> P (set_calibrated true w)) ->
  (forall w, P w -> P (set_keys_received true w)) ->
  preserves P (run_loop fromstring inputs).
Proof.
  intros Hblind Hcal Hk.
  induction inputs as [|[recv stop] more IH]; cbn [run_loop].
  - apply preserves_ret.
  - apply preserves_bind; [apply parse_XML_preserves; assumption|]. intros _.
    apply preserves_bind.
    + destruct stop; [|apply preserves_ret].
      apply preserves_modify. intros w Hw. apply Hblind, Hw.
    + intros _. apply preserves_bind; [apply preserves_gets|].
      intros [[|]|]; [exact IH | apply preserves_ret | apply preserves_raise].
Qed.

Lemma run_preserves (P : World -> Prop) (inputs : list (string * bool)) :
  sink_blind P ->
  (forall w, P w -> P (set_calibrated true w)) ->
  (forall w, P w -> P (set_keys_received true w)) ->
  preserves P (run fromstring inputs).
Proof.
  intros Hblind Hcal Hk. unfold run.
  apply preserves_bind; [|intros _; apply run_loop_preserves; assumption].
  apply preserves_modify. intros w Hw. apply Hblind, Hw.
Qed.

(** ** Claims about the interpreter *)

(** C2, as amended: a buffered message that does not parse raises
    ParseError, and nothing between [fromstring] and the top of [run]
    catches it.  The worker loop ends with that exception: the messages in
    front of the bad one have been routed, the bad line itself is in the
    raw-message log, and neither the rest of the buffer nor any later input
    is looked at. *)
Theorem parse_error_ends_worker
    (recv : string) (stop : bool) (more : list (string * bool))
    (pre post : list string) (bad : string) (w w1 : World) (f : file) :
  let w0 := set_tracker (mkWorker (started (tracker w)) (Some true)) w in
  fromstring bad = None ->
  fst (fill_buffer recv w0) = Ok (pre ++ bad :: post)%list ->
  for_each pre (interpret fromstring) (snd (fill_buffer recv w0)) = (Ok tt, w1) ->
  XML_output w1 = Some f ->
  closed f = false ->
  run fromstring ((recv, stop) :: more) w
  = (Raise ParseError,
     set_XML_output (Some (mkfile (path f) false (written f ++ [bad; nl])%list)) w1).
Proof.
  intros w0 Hbad Hbuf Hpre Hx Hopen.
  unfold run. unfold bind at 1, modify at 1. fold w0.
  cbn [run_loop]. unfold bind at 1. unfold XML_callback, parse_XML.
  unfold bind at 1.
  destruct (fill_buffer recv w0) as [r w0'] eqn:E. simpl in Hbuf, Hpre. subst r.
  rewrite (for_each_app _ _ _ _ _ Hpre).
  cbn [for_each]. unfold bind at 1. unfold interpret.
  unfold bind at 1, file_write at 1. cbn [h_get h_XML]. rewrite Hx, Hopen.
  unfold bind at 1, file_write at 1. cbn [h_get h_set h_XML].
  destruct w1; simpl in *. unfold xml_fromstring. rewrite Hbad.
  unfold bind, raise. unfold set_XML_output. simpl.
  rewrite <- app_assoc. reflexivity.
Qed.

(** C3: [calibrated] is false when the module is loaded; a message whose
    ID attribute is CALIB_RESULT sets it (the raw log being open and the
    socket connected, so that the statement is reached); any other message
    leaves it as it is; once true it stays true through [parse_XML] and the
    worker loop, whatever they do; [stop_eyetracking] sets it back to false
    and [start_eyetracking] does not touch it. *)
Theorem calibrated_set_once_reset_by_stop :
  calibrated module_init = false /\
  (forall XML e w,
     fromstring XML = Some e -> is_calib_result e = true ->
     sock_connected w = true -> is_open (XML_output w) = true ->
     calibrated (snd (interpret fromstring XML w)) = true) /\
  (forall XML w,
     (forall e, fromstring XML = Some e -> is_calib_result e = false) ->
     calibrated (snd (interpret fromstring XML w)) = calibrated w) /\
  (forall recv w,
     calibrated w = true -> calibrated (snd (parse_XML fromstring recv w)) = true) /\
  (forall inputs w,
     calibrated w = true -> calibrated (snd (run fromstring inputs w)) = true) /\
  (forall w, calibrated (snd (stop_eyetracking w)) = false) /\
  (forall name reachable w,
     calibrated (snd (start_eyetracking name reachable w)) = calibrated w).
Proof.
  split; [reflexivity|]. split; [|split; [|split; [|split; [|split]]]].
  - intros XML e w He Hid Hsock Hx.
    destruct w as [sc tr lo cal kr ro co xo tk rt]. simpl in Hsock, Hx. subst sc.
    destruct xo as [[xp [|] xw]|]; try discriminate.
    unfold interpret, xml_fromstring. rewrite He.
    unfold bind at 1, file_write at 1. simpl.
    unfold bind at 1, file_write at 1. simpl. unfold set_XML_output. simpl.
    unfold bind at 1, ret at 1.
    unfold bind at 1. rewrite note_calibration_live, Hid, orb_true_r.
    apply (preserves_bind (fun w' => calibrated w' = true) (write_calibration e)
             (fun _ => write_record e)).
    + apply write_calibration_preserves, sink_blind_calibrated.
    + intros _. apply write_record_preserves; [apply sink_blind_calibrated | auto].
    + reflexivity.
  - intros XML w Hno.
    apply (interpret_preserves (fun w' => calibrated w' = calibrated w)).
    + apply sink_blind_calibrated.
    + intros e He Hid. rewrite (Hno e He) in Hid. discriminate.
    + auto.
    + reflexivity.
  - intros recv w H.
    apply (parse_XML_preserves (fun w => calibrated w = true));
      auto using sink_blind_calibrated.
  - intros inputs w H.
    apply (run_preserves (fun w => calibrated w = true));
      auto using sink_blind_calibrated.
  - intros [sc tr lo cal kr [ro|] [co|] xo tk rt]; reflexivity.
  - intros name reachable [sc tr lo cal kr ro co xo [st ir] rt].
    destruct sc, reachable, st; reflexivity.
Qed.

(** C5, as amended: in a live session that has not yet written the header,
    and whose REC messages carry at least one attribute, the data-record
    sink receives rows only for the REC messages whose routing finds
    [calibrated] true, that is those that arrive after a calibration result
    or carry ID = CALIB_RESULT themselves.  For those it receives the
    attribute names of the first one as a single header row, and then one
    values row for each, in order.  A REC message that finds [calibrated]
    false and is not itself a calibration result writes nothing there. *)
Theorem data_rows_once_calibrated :
  (forall msgs els w,
     session_live w = true ->
     keys_received w = false ->
     parse_all fromstring msgs = Some els ->
     forallb (fun e => implb (is_REC e) (has_attributes e)) els = true ->
     exists w',
       for_each msgs (interpret fromstring) w = (Ok tt, w') /\
       file_written (record_output w') =
         (file_written (record_output w) ++
          data_rows true (routed_records els (calibrated w)))%list) /\
  (forall XML e w,
     session_live w = true ->
     fromstring XML = Some e ->
     is_REC e = true ->
     calibrated w = false ->
     is_calib_result e = false ->
     exists w',
       interpret fromstring XML w = (Ok tt, w') /\
       record_output w' = record_output w /\ calibrated w' = false).
Proof.
  split.
  - intros msgs els w Hlive Hk Hparse Hattr.
    destruct (for_each_interpret_records msgs els w Hlive Hparse (or_intror Hattr))
      as [w' [Hrun [_ [_ Hrec]]]].
    exists w'. rewrite Hk in Hrec. auto.
  - intros XML e w Hlive He Hrec Hcal Hid.
    destruct w as [sc tr lo cal kr ro co xo tk rt].
    unfold session_live in Hlive. simpl in Hlive, Hcal. subst cal.
    destruct sc; [|discriminate].
    destruct ro as [[rp [|] rw]|]; try discriminate.
    destruct co as [[cp [|] cw]|]; try discriminate.
    destruct xo as [[xp [|] xw]|]; try discriminate.
    unfold interpret, xml_fromstring. rewrite He.
    unfold bind at 1, file_write at 1. simpl.
    unfold bind at 1, file_write at 1. simpl. unfold set_XML_output. simpl.
    unfold bind at 1, ret at 1.
    unfold bind at 1. rewrite note_calibration_live.
    unfold bind at 1. rewrite write_calibration_live.
    rewrite write_record_live, Hid.
    eexists; split; [reflexivity|]. simpl. rewrite app_nil_r. auto.
Qed.

(** C6, as amended: the guard in front of the hide-overlay command tests
    the message only, not [calibrated].  In a live session every message
    whose ID attribute is CALIB_RESULT sends the command again, so [k] such
    messages send it [k] times; the flag ends true as soon as there is one. *)
Theorem hide_command_per_calibration_result
    (msgs : list string) (els : list Element) (w : World) :
  session_live w = true ->
  parse_all fromstring msgs = Some els ->
  exists w',
    for_each msgs (interpret fromstring) w = (Ok tt, w') /\
    transmitted w' =
      (transmitted w ++
       repeat (hide_calibration ++ crlf)%string
              (List.length (filter is_calib_result els)))%list /\
    calibrated w' = calibrated w || existsb is_calib_result els.
Proof.
  intros Hlive Hparse.
  destruct (for_each_interpret_live msgs els w Hlive Hparse)
    as [w' [Hrun [_ [Hcal [Htx _]]]]].
  exists w'. auto.
Qed.

(** C8: [stop_eyetracking] never touches [XML_output]: the last statement
    closes [calibration_output] a second time instead.  After a session the
    raw-message file is still open, the other two are closed, the socket is
    closed and [calibrated] is false. *)
Theorem stop_leaves_XML_output_open :
  (forall w, XML_output (snd (stop_eyetracking w)) = XML_output w) /\
  stop_eyetracking sample_session
  = (Ok tt,
     mkWorld false (transmitted sample_session) [] false false
       (Some (mkfile "out_record.csv" true []))
       (Some (mkfile "out_calibration.csv" true []))
       (Some (mkfile "out_xml.csv" false []))
       (mkWorker false None)
       [mkWorker true (Some false)]).
Proof.
  split; [|reflexivity].
  intros [sc tr lo cal kr [ro|] [co|] xo tk rt]; reflexivity.
Qed.

(** C10: neither [stop_eyetracking] nor [start_eyetracking] assigns
    [keys_received].  If the flag is true when a session is stopped, the
    next session starts with it true and with an empty data-record file,
    and whatever messages follow, that file receives values rows only: no
    header row. *)
Theorem header_flag_outlives_session :
  (forall w, keys_received (snd (stop_eyetracking w)) = keys_received w) /\
  (forall name reachable w,
     keys_received (snd (start_eyetracking name reachable w)) = keys_received w) /\
  (forall w name msgs els,
     keys_received w = true ->
     record_output w <> None ->
     calibration_output w <> None ->
     parse_all fromstring msgs = Some els ->
     exists w1 w2 w3,
       stop_eyetracking w = (Ok tt, w1) /\
       calibrated w1 = false /\ keys_received w1 = true /\
       start_eyetracking name true w1 = (Ok tt, w2) /\
       keys_received w2 = true /\
       record_output w2 = Some (mkfile (name ++ "_record.csv") false []) /\
       for_each msgs (interpret fromstring) w2 = (Ok tt, w3) /\
       keys_received w3 = true /\
       file_written (record_output w3) =
         flat_map (fun e => row (el_values e)) (routed_records els false)).
Proof.
  split; [|split].
  - intros [sc tr lo cal kr [ro|] [co|] xo tk rt]; reflexivity.
  - intros name reachable [sc tr lo cal kr ro co xo [st ir] rt].
    destruct sc, reachable, st; reflexivity.
  - intros w name msgs els Hk Hro Hco Hparse.
    destruct w as [sc tr lo cal kr [ro|] [co|] xo tk rt];
      simpl in Hro, Hco; try congruence.
    simpl in Hk. subst kr. clear Hro Hco.
    set (W := mkWorld sc tr lo cal true (Some ro) (Some co) xo tk rt).
    set (w1 := snd (stop_eyetracking W)).
    set (w2 := snd (start_eyetracking name true w1)).
    assert (Hlive2 : session_live w2 = true) by (vm_compute; reflexivity).
    assert (Hk2 : keys_received w2 = true) by (vm_compute; reflexivity).
    destruct (for_each_interpret_records msgs els w2 Hlive2 Hparse (or_introl Hk2))
      as [w3 [Hrun [_ [Hk3 Hrec]]]].
    exists w1, w2, w3.
    change (keys_received w2) with true in Hk3, Hrec.
    change (calibrated w2) with false in Hrec.
    change (file_written (record_output w2)) with (@nil string) in Hrec.
    rewrite data_rows_no_header in Hrec.
    repeat (split; [vm_compute; reflexivity|]).
    split; [exact Hrun|]. split; [exact Hk3 | exact Hrec].
Qed.

End Interpreter.


(** ** The claims on the sample session *)

Lemma parse_error_ends_worker_witness :
  fst (run sample_fromstring
         [(stream_with_bad_line, false); ((msg_REC ++ crlf)%string, false)]
         sample_session)
  = Raise ParseError.
Proof.
  rewrite (parse_error_ends_worker sample_fromstring
             stream_with_bad_line false [((msg_REC ++ crlf)%string, false)]
             [msg_SET] [msg_CAL] "<oops>" sample_session
             (snd (for_each [msg_SET] (interpret sample_fromstring)
                     (set_tracker (mkWorker true (Some true)) sample_session)))
             (mkfile "out_xml.csv" false [msg_SET; nl]));
    vm_compute; reflexivity.
Defined.

(** C2 as stated fails: with one line that does not parse between two
    statements that do, the worker ends with ParseError; the statement after
    the bad line reaches neither the raw-message log nor the calibration
    file, and the input that follows is not read.  Without the bad line the
    calibration file receives its two rows. *)
Lemma bad_line_stops_routing :
  fst (run sample_fromstring
         [(stream_with_bad_line, false); ((msg_REC ++ crlf)%string, false)]
         sample_session) = Raise ParseError /\
  file_written (XML_output (snd (run sample_fromstring
         [(stream_with_bad_line, false); ((msg_REC ++ crlf)%string, false)]
         sample_session))) = [msg_SET; nl; "<oops>"; nl] /\
  file_written (calibration_output (snd (run sample_fromstring
         [(stream_with_bad_line, false); ((msg_REC ++ crlf)%string, false)]
         sample_session))) = [] /\
  file_written (calibration_output (snd (run sample_fromstring
         [((msg_SET ++ crlf ++ msg_CAL ++ crlf)%string, false)]
         sample_session))) = ["ID,"; "AVE_ERROR,"; nl; "CALIB_RESULT,"; "0.5,"; nl].
Proof.
  split; [|split; [|split]]; vm_compute; reflexivity.
Qed.

Lemma calibrated_set_once_reset_by_stop_witness :
  calibrated (snd (interpret sample_fromstring msg_CAL sample_session)) = true /\
  calibrated (snd (interpret sample_fromstring msg_REC sample_session))
    = calibrated sample_session /\
  calibrated (snd (parse_XML sample_fromstring (msg_REC ++ crlf) calibrated_session))
    = true /\
  calibrated (snd (run sample_fromstring [((msg_REC ++ crlf)%string, true)]
                     calibrated_session)) = true.
Proof.
  destruct (calibrated_set_once_reset_by_stop sample_fromstring)
    as [_ [Hset [Hkeep [Hparse [Hrun _]]]]].
  split; [|split; [|split]].
  - apply (Hset msg_CAL (mkElement "CAL" [("ID", "CALIB_RESULT"); ("AVE_ERROR", "0.5")]));
      reflexivity.
  - apply Hkeep. intros e He. vm_compute in He. injection He as <-. reflexivity.
  - apply Hparse. reflexivity.
  - apply Hrun. reflexivity.
Defined.

Lemma data_rows_once_calibrated_witness :
  (exists w',
     for_each [msg_REC2; msg_CAL; msg_REC; msg_REC2]
       (interpret sample_fromstring) sample_session = (Ok tt, w') /\
     file_written (record_output w')
     = ["FPOGX,"; "FPOGY,"; nl; "0.4,"; "0.6,"; nl; "0.1,"; "0.2,"; nl]) /\
  (exists w',
     interpret sample_fromstring msg_REC sample_session = (Ok tt, w') /\
     record_output w' = record_output sample_session /\ calibrated w' = false).
Proof.
  split.
  - destruct (proj1 (data_rows_once_calibrated sample_fromstring)
                [msg_REC2; msg_CAL; msg_REC; msg_REC2]
                [mkElement "REC" [("FPOGX", "0.1"); ("FPOGY", "0.2")];
                 mkElement "CAL" [("ID", "CALIB_RESULT"); ("AVE_ERROR", "0.5")];
                 mkElement "REC" [("FPOGX", "0.4"); ("FPOGY", "0.6")];
                 mkElement "REC" [("FPOGX", "0.1"); ("FPOGY", "0.2")]]
                sample_session eq_refl eq_refl eq_refl eq_refl)
      as [w' [Hrun Hrows]].
    exists w'. split; [exact Hrun | exact Hrows].
  - apply (proj2 (data_rows_once_calibrated sample_fromstring)
             msg_REC (mkElement "REC" [("FPOGX", "0.4"); ("FPOGY", "0.6")]));
      reflexivity.
Defined.

(** C5 as stated fails twice.  A REC message that carries ID = CALIB_RESULT
    is written to the data-record file although [calibrated] was false when
    it arrived, because the flag is set before the routing test.  And a
    first REC message without attributes writes an empty header row but
    leaves [keys_received] false, so that the next REC message writes a
    header row after a values row. *)
Lemma data_rows_against_the_claim :
  (calibrated sample_session = false /\
   sample_fromstring "<REC ID='CALIB_RESULT' />"
     = Some (mkElement "REC" [("ID", "CALIB_RESULT")]) /\
   fst (interpret sample_fromstring "<REC ID='CALIB_RESULT' />" sample_session)
     = Ok tt /\
   file_written (record_output
     (snd (interpret sample_fromstring "<REC ID='CALIB_RESULT' />" sample_session)))
     = ["ID,"; nl; "CALIB_RESULT,"; nl]) /\
  (calibrated calibrated_session = true /\
   keys_received calibrated_session = false /\
   file_written (record_output
     (snd (for_each ["<REC />"; msg_REC] (interpret sample_fromstring) calibrated_session)))
     = [nl; nl; "FPOGX,"; "FPOGY,"; nl; "0.4,"; "0.6,"; nl]).
Proof.
  split; [split; [|split; [|split]] | split; [|split]];
    vm_compute; reflexivity.
Qed.

Lemma hide_command_per_calibration_result_witness :
  exists w',
    for_each [msg_CAL; msg_REC; msg_CAL] (interpret sample_fromstring) sample_session
      = (Ok tt, w') /\
    transmitted w' =
      (transmitted sample_session ++
       [(hide_calibration ++ crlf)%string; (hide_calibration ++ crlf)%string])%list /\
    calibrated w' = true.
Proof.
  apply (hide_command_per_calibration_result sample_fromstring
           [msg_CAL; msg_REC; msg_CAL]
           [mkElement "CAL" [("ID", "CALIB_RESULT"); ("AVE_ERROR", "0.5")];
            mkElement "REC" [("FPOGX", "0.4"); ("FPOGY", "0.6")];
            mkElement "CAL" [("ID", "CALIB_RESULT"); ("AVE_ERROR", "0.5")]]
           sample_session); reflexivity.
Defined.

(** C6 as stated fails: two calibration results in one session send the
    hide-overlay command twice. *)
Lemma hide_command_sent_twice :
  fst (parse_XML sample_fromstring (msg_CAL ++ crlf ++ msg_CAL ++ crlf) sample_session)
    = Ok tt /\
  count_occ string_dec (transmitted sample_session) (hide_calibration ++ crlf) = 0 /\
  count_occ string_dec
    (transmitted
       (snd (parse_XML sample_fromstring (msg_CAL ++ crlf ++ msg_CAL ++ crlf)
               sample_session)))
    (hide_calibration ++ crlf) = 2.
Proof.
  split; [|split]; vm_compute; reflexivity.
Qed.

Lemma header_flag_outlives_session_witness :
  exists w1 w2 w3,
    stop_eyetracking recorded_session = (Ok tt, w1) /\
    calibrated w1 = false /\ keys_received w1 = true /\
    start_eyetracking "again" true w1 = (Ok tt, w2) /\
    keys_received w2 = true /\
    record_output w2 = Some (mkfile "again_record.csv" false []) /\
    for_each [msg_CAL; msg_REC2] (interpret sample_fromstring) w2 = (Ok tt, w3) /\
    keys_received w3 = true /\
    file_written (record_output w3) = ["0.1,"; "0.2,"; nl].
Proof.
  apply (proj2 (proj2 (header_flag_outlives_session sample_fromstring))
           recorded_session "again" [msg_CAL; msg_REC2]
           [mkElement "CAL" [("ID", "CALIB_RESULT"); ("AVE_ERROR", "0.5")];
            mkElement "REC" [("FPOGX", "0.1"); ("FPOGY", "0.2")]]).
  - reflexivity.
  - vm_compute. discriminate.
  - vm_compute. discriminate.
  - reflexivity.
Defined.

(** ** The flag under interleaving *)

Import Interleaving.

Lemma spinning_worker_step (c : config) :
  spinning c -> exists c', worker_step c = Some c' /\ spinning c'.
Proof.
  intros [Hf [Hc Hpc]]. destruct c as [l f w p u]. simpl in *. subst f p.
  destruct Hpc as [[-> ->] | [[-> ->] | [[-> ->] | [-> ->]]]];
    eexists; (split; [reflexivity|]); unfold spinning; simpl; tauto.
Qed.

Lemma spinning_forever (n : nat) (c : config) :
  spinning c -> spinning (exec (repeat Worker n) c).
Proof.
  revert c; induction n as [|n IH]; intros c H; [exact H|].
  simpl. destruct (spinning_worker_step c H) as [c' [-> H']]. apply IH, H'.
Qed.

Lemma spinning_not_finished (c : config) : spinning c -> wpc c <> W_finished.
Proof.
  intros [_ [_ Hpc]] E. rewrite E in Hpc.
  destruct Hpc as [[H _] | [[H _] | [[H _] | [H _]]]]; discriminate.
Qed.

(** Apart from the first statement of [run], every access to the flag is
    made with the lock held. *)
Lemma step_lock_consistent (t : thread) (c c' : config) :
  lock_consistent c = true ->
  unguarded c = (match wpc c with W_assign_true => 0 | _ => 1 end) ->
  step t c = Some c' ->
  lock_consistent c' = true /\
  unguarded c' = (match wpc c' with W_assign_true => 0 | _ => 1 end).
Proof.
  destruct c as [l f w p u]. unfold lock_consistent. simpl. intros Hl Hu Hs. subst u.
  destruct t; simpl in Hs.
  - unfold worker_step in Hs. simpl in Hs.
    destruct w; destruct l as [[|]|]; destruct p; simpl in Hl; try discriminate;
      try (destruct f as [[|]|]; try discriminate);
      injection Hs as <-; split; reflexivity.
  - unfold caller_step in Hs. simpl in Hs.
    destruct p; destruct l as [[|]|]; destruct w; simpl in Hl; try discriminate;
      injection Hs as <-; split; reflexivity.
Qed.

Lemma exec_unguarded (schedule : list thread) (c : config) :
  lock_consistent c = true ->
  unguarded c = (match wpc c with W_assign_true => 0 | _ => 1 end) ->
  unguarded (exec schedule c) <= 1.
Proof.
  revert c; induction schedule as [|t s IH]; intros c Hl Hu; simpl.
  - rewrite Hu. destruct (wpc c); lia.
  - destruct (step t c) as [c'|] eqn:E; [|apply IH; assumption].
    destruct (step_lock_consistent t c c' Hl Hu E) as [Hl' Hu']. apply IH; assumption.
Qed.

(** C9: the first statement of [run] assigns [is_running] without taking
    the lock; every other access is made under it.  So a [stop_running]
    that completes before the worker thread reaches that statement is
    overwritten: the caller is back from [stop_running], the flag is true,
    and the worker never leaves its loop, however long it runs. *)
Theorem stop_request_overwritten_by_run :
  unguarded (exec [Worker] started_config) = 1 /\
  (forall schedule, unguarded (exec schedule started_config) <= 1) /\
  let c := exec [Caller; Caller; Caller; Worker] started_config in
  cpc c = C_returned /\
  flag (exec [Caller; Caller; Caller] started_config) = Some false /\
  flag c = Some true /\
  forall n, wpc (exec (repeat Worker n) c) <> W_finished.
Proof.
  split; [reflexivity|]. split.
  - intros schedule. apply exec_unguarded; reflexivity.
  - cbv zeta. split; [reflexivity|]. split; [reflexivity|]. split; [reflexivity|].
    intros n. apply spinning_not_finished, spinning_forever.
    unfold spinning. simpl. tauto.
Qed.

(** * Further properties *)

(** ** fill_buffer as a function of its fragments *)

Lemma for_lines_result (lines buf ov : list string) :
  existsb is_empty lines = false ->
  for_lines lines buf ov
  = (Ok (buf ++ filter ends_with_GT lines)%list,
     match rev (filter unterminated lines) with
     | [] => ov
     | t :: _ => [t]
     end).
Proof.
  revert buf ov; induction lines as [|l ls IH]; intros buf ov H.
  - simpl. now rewrite app_nil_r.
  - cbn [existsb] in H. apply orb_false_iff in H as [Hl Hls].
    unfold is_empty in Hl. apply String.eqb_neq in Hl.
    destruct (last_char_nonempty l Hl) as [c Hc].
    assert (E : Ascii.eqb c GT = ends_with_GT l)
      by (unfold ends_with_GT; now rewrite Hc).
    assert (Hu : unterminated l = negb (ends_with_GT l)) by reflexivity.
    cbn [for_lines filter]. rewrite Hc, E, Hu.
    destruct (ends_with_GT l); cbn [negb].
    + rewrite (IH _ _ Hls), <- app_assoc. reflexivity.
    + rewrite (IH _ _ Hls). cbn [rev].
      destruct (rev (filter unterminated ls)); reflexivity.
Qed.

Lemma for_lines_raises (lines buf ov : list string) :
  existsb is_empty lines = true ->
  fst (for_lines lines buf ov) = Raise IndexError.
Proof.
  revert buf ov; induction lines as [|l ls IH]; intros buf ov H; simpl in *.
  - discriminate.
  - destruct l as [|x l]; [reflexivity|].
    simpl in H.
    destruct (last_char_nonempty (String x l)) as [c Hc]; [discriminate|].
    rewrite Hc. destruct (Ascii.eqb c GT); apply IH; exact H.
Qed.

(** The result of a call that has a first fragment for the pending text and
    no empty fragment. *)
Lemma fill_buffer_from_result (ov : list string) (recv : string) :
  (ov = [] \/ splitlines (rx recv) <> []) ->
  existsb is_empty (joined_lines ov (splitlines (rx recv))) = false ->
  fill_buffer_from ov recv
  = (Ok (filter ends_with_GT (joined_lines ov (splitlines (rx recv)))),
     firstn 1 (rev (filter unterminated (joined_lines ov (splitlines (rx recv)))))).
Proof.
  intros Hfirst Hne. unfold fill_buffer_from, joined_lines in *. cbv zeta.
  destruct ov as [|p ov0].
  - rewrite (for_lines_result _ _ _ Hne). simpl.
    destruct (rev (filter unterminated (splitlines (rx recv)))); reflexivity.
  - destruct (splitlines (rx recv)) as [|first others].
    + destruct Hfirst; congruence.
    + rewrite (for_lines_result _ _ _ Hne). simpl app.
      destruct (rev (filter unterminated ((p ++ first) :: others))); reflexivity.
Qed.

(** X1: when the call has a first fragment to join the pending text to and
    no fragment is empty, [fill_buffer] returns exactly the fragments that
    end in '>', in order, and leaves in [line_overflow] the last fragment
    that does not, or nothing if there is none.  An unterminated fragment
    followed by another one is dropped. *)
Theorem fill_buffer_keeps_last_unterminated (ov : list string) (recv : string) :
  (ov = [] \/ splitlines (rx recv) <> []) ->
  existsb is_empty (joined_lines ov (splitlines (rx recv))) = false ->
  fill_buffer_from ov recv
  = (Ok (filter ends_with_GT (joined_lines ov (splitlines (rx recv)))),
     firstn 1 (rev (filter unterminated (joined_lines ov (splitlines (rx recv)))))).
Proof.
  intros Hfirst Hne.
  destruct Hfirst as [Hov | Hlines].
  - apply fill_buffer_from_result; [left; exact Hov | exact Hne].
  - apply fill_buffer_from_result; [right; exact Hlines | exact Hne].
Qed.

Lemma fill_buffer_keeps_last_unterminated_witness :
  fill_buffer_from ["<REC FPO"]
    ("GX='0.4' FPOGY='0.6' />" ++ crlf ++ "<REC FP" ++ crlf ++ msg_SET ++ crlf ++ "<CAL ID")
  = (Ok [msg_REC; msg_SET], ["<CAL ID"]).
Proof.
  apply (fill_buffer_keeps_last_unterminated ["<REC FPO"]
           ("GX='0.4' FPOGY='0.6' />" ++ crlf ++ "<REC FP" ++ crlf ++ msg_SET ++ crlf ++ "<CAL ID")).
  - right. vm_compute. discriminate.
  - vm_compute. reflexivity.
Defined.

(** X2: once [sock.recv] has delivered 7-bit text, so that the decoding in
    [rx] goes through, [fill_buffer] raises in two situations only, both
    IndexError: text is pending and the chunk has no line at all, or one of
    the fragments (the first one taken with the pending text in front) is
    empty.  In every other case it returns. *)
Theorem fill_buffer_raises_exactly (ov : list string) (recv : string) :
  seven_bit recv = true ->
  (forall e, fst (fill_buffer_from ov recv) = Raise e -> e = IndexError) /\
  (fst (fill_buffer_from ov recv) = Raise IndexError <->
   (ov <> [] /\ splitlines (rx recv) = []) \/
   existsb is_empty (joined_lines ov (splitlines (rx recv))) = true).
Proof.
  intros _.
  assert (Hcases :
    (ov <> [] /\ splitlines (rx recv) = [] /\
     fst (fill_buffer_from ov recv) = Raise IndexError) \/
    ((ov = [] \/ splitlines (rx recv) <> []) /\
     existsb is_empty (joined_lines ov (splitlines (rx recv))) = true /\
     fst (fill_buffer_from ov recv) = Raise IndexError) \/
    ((ov = [] \/ splitlines (rx recv) <> []) /\
     existsb is_empty (joined_lines ov (splitlines (rx recv))) = false /\
     exists buf, fst (fill_buffer_from ov recv) = Ok buf)).
  { destruct ov as [|p ov0].
    - destruct (existsb is_empty (joined_lines [] (splitlines (rx recv)))) eqn:E.
      + right; left. split; [auto|]. split; [reflexivity|].
        unfold fill_buffer_from. cbv zeta. apply for_lines_raises. exact E.
      + right; right. split; [auto|]. split; [reflexivity|].
        rewrite fill_buffer_from_result by auto. eexists; reflexivity.
    - destruct (splitlines (rx recv)) as [|first others] eqn:Es.
      + left. split; [discriminate|]. split; [reflexivity|].
        unfold fill_buffer_from. rewrite Es. reflexivity.
      + destruct (existsb is_empty (joined_lines (p :: ov0) (first :: others))) eqn:E.
        * right; left. split; [right; discriminate|]. split; [reflexivity|].
          unfold fill_buffer_from. rewrite Es. cbv zeta.
          apply for_lines_raises. exact E.
        * right; right. split; [right; discriminate|]. split; [reflexivity|].
          assert (H : fill_buffer_from (p :: ov0) recv
                      = (Ok (filter ends_with_GT (joined_lines (p :: ov0) (first :: others))),
                         firstn 1 (rev (filter unterminated
                                          (joined_lines (p :: ov0) (first :: others)))))).
          { rewrite <- Es. apply fill_buffer_from_result.
            - right. rewrite Es. discriminate.
            - rewrite Es. exact E. }
          rewrite H. eexists; reflexivity. }
  split.
  - intros e He.
    destruct Hcases as [[_ [_ H]] | [[_ [_ H]] | [_ [_ [buf H]]]]];
      rewrite H in He; congruence.
  - split.
    + intros He.
      destruct Hcases as [[H1 [H2 _]] | [[_ [H _]] | [_ [_ [buf H]]]]];
        [left; auto | right; auto | rewrite H in He; discriminate].
    + intros [[H1 H2] | H].
      * destruct Hcases as [[_ [_ H]] | [[[H3|H3] _] | [[H3|H3] _]]];
          [exact H | congruence | congruence | congruence | congruence].
      * destruct Hcases as [[_ [_ H']] | [[_ [_ H']] | [_ [H' _]]]];
          [exact H' | exact H' | congruence].
Qed.

Lemma fill_buffer_raises_exactly_witness :
  fst (fill_buffer_from ["<REC FPO"] "") = Raise IndexError /\
  fst (fill_buffer_from [] (msg_SET ++ crlf ++ crlf)) = Raise IndexError.
Proof.
  split.
  - apply (proj2 (proj2 (fill_buffer_raises_exactly ["<REC FPO"] "" eq_refl))).
    left. split; [discriminate | reflexivity].
  - apply (proj2 (proj2 (fill_buffer_raises_exactly [] (msg_SET ++ crlf ++ crlf) eq_refl))).
    right. vm_compute. reflexivity.
Defined.

(** ** What [line_overflow] can hold *)

Lemma for_lines_overflow_ok (lines buf ov : list string) :
  overflow_ok ov = true -> overflow_ok (snd (for_lines lines buf ov)) = true.
Proof.
  revert buf ov; induction lines as [|l ls IH]; intros buf ov H; simpl; [exact H|].
  destruct (last_char l) as [c|] eqn:E; [|exact H].
  destruct (Ascii.eqb c GT) eqn:Ec; [apply IH; exact H|].
  apply IH. simpl. unfold ends_with_GT. rewrite E, Ec.
  destruct l; [discriminate | reflexivity].
Qed.

Lemma fill_buffer_from_overflow_ok (ov : list string) (recv : string) :
  overflow_ok ov = true -> overflow_ok (snd (fill_buffer_from ov recv)) = true.
Proof.
  intros H. unfold fill_buffer_from. cbv zeta.
  destruct ov as [|p ov0]; [apply for_lines_overflow_ok; exact H|].
  destruct (splitlines (rx recv)); [exact H|].
  apply for_lines_overflow_ok. reflexivity.
Qed.

(** ** Only forward *)

Lemma file_extends_refl (f : option file) : file_extends f f.
Proof.
  destruct f as [f|]; simpl; [|exact I].
  repeat split. exists []. now rewrite app_nil_r.
Qed.

Lemma file_extends_trans (a b c : option file) :
  file_extends a b -> file_extends b c -> file_extends a c.
Proof.
  destruct a as [a|], b as [b|], c as [c|]; simpl; try tauto.
  intros [Hp [Hc [m Hm]]] [Hp' [Hc' [m' Hm']]].
  repeat split; try congruence.
  exists (m ++ m')%list. rewrite Hm', Hm, app_assoc. reflexivity.
Qed.

Lemma moves_forward_refl (w : World) : moves_forward w w.
Proof.
  unfold moves_forward. repeat split; auto using file_extends_refl.
  exists []. now rewrite app_nil_r.
Qed.

Lemma moves_forward_trans (a b c : World) :
  moves_forward a b -> moves_forward b c -> moves_forward a c.
Proof.
  intros [H1 [H2 [H3 [[m H4] [H5 [H6 [H7 [H8 H9]]]]]]]]
         [K1 [K2 [K3 [[m' K4] [K5 [K6 [K7 [K8 K9]]]]]]]].
  unfold moves_forward. repeat split; try congruence; eauto using file_extends_trans.
  exists (m ++ m')%list. rewrite K4, H4, app_assoc. reflexivity.
Qed.

Lemma steady_refl (w : World) : steady w w.
Proof. split; [apply moves_forward_refl | reflexivity]. Qed.

Lemma steady_trans (a b c : World) : steady a b -> steady b c -> steady a c.
Proof.
  intros [H1 H2] [K1 K2]. split; [eapply moves_forward_trans; eauto | congruence].
Qed.

Lemma keeps_steady_ret {A : Type} (a : A) : keeps steady (ret a).
Proof. intros w. apply steady_refl. Qed.

Lemma keeps_steady_bind {A B : Type} (m : M A) (k : A -> M B) :
  keeps steady m -> (forall a, keeps steady (k a)) -> keeps steady (bind m k).
Proof.
  intros Hm Hk w. unfold bind. specialize (Hm w).
  destruct (m w) as [[a|e] w1]; simpl in *; [|exact Hm].
  eapply steady_trans; [exact Hm | apply Hk].
Qed.

Lemma keeps_steady_for_each {A : Type} (xs : list A) (body : A -> M unit) :
  (forall x, keeps steady (body x)) -> keeps steady (for_each xs body).
Proof.
  intros Hb; induction xs as [|x xs IH]; simpl.
  - apply keeps_steady_ret.
  - apply keeps_steady_bind; [apply Hb | intros _; exact IH].
Qed.

Ltac steady_world :=
  unfold steady, moves_forward; simpl;
  repeat split; auto using file_extends_refl;
  try (exists []; now rewrite app_nil_r);
  try (eexists; reflexivity).

Lemma keeps_steady_write_XML (s : string) : keeps steady (file_write h_XML s).
Proof.
  intros [sc tr lo cal kr ro co [[p [|] wr]|] tk rt];
    unfold file_write; simpl; steady_world.
Qed.

Lemma keeps_steady_write_calibration (s : string) :
  keeps steady (file_write h_calibration s).
Proof.
  intros [sc tr lo cal kr ro [[p [|] wr]|] xo tk rt];
    unfold file_write; simpl; steady_world.
Qed.

Lemma keeps_steady_write_record (s : string) : keeps steady (file_write h_record s).
Proof.
  intros [sc tr lo cal kr [[p [|] wr]|] co xo tk rt];
    unfold file_write; simpl; steady_world.
Qed.

Lemma keeps_steady_flush (h : handle) : keeps steady (file_flush h).
Proof.
  intros w. unfold file_flush.
  destruct (h_get h w) as [f|]; [destruct (closed f)|]; apply steady_refl.
Qed.

Lemma keeps_steady_tx (msg : string) : keeps steady (tx msg).
Proof.
  intros [sc tr lo cal kr ro co xo tk rt]. unfold tx. simpl.
  destruct sc; simpl; steady_world.
Qed.

Lemma keeps_steady_note_calibration (e : Element) : keeps steady (note_calibration e).
Proof.
  unfold note_calibration. cbv zeta.
  destruct (mem_key "ID" (el_keys e)); [|apply keeps_steady_ret].
  destruct (dict_get "ID" (attrib e)) as [v|]; [|intros w; apply steady_refl].
  destruct (String.eqb v "CALIB_RESULT"); [|apply keeps_steady_ret].
  apply keeps_steady_bind; [apply keeps_steady_tx|].
  intros _ [sc tr lo cal kr ro co xo tk rt]. unfold modify. steady_world.
Qed.

Lemma keeps_steady_write_calibration_block (e : Element) :
  keeps steady (write_calibration e).
Proof.
  unfold write_calibration. cbv zeta.
  destruct (String.eqb (tag e) "CAL"); [|apply keeps_steady_ret].
  repeat first
    [ apply keeps_steady_bind; [|intros _]
    | apply keeps_steady_for_each; intros ?
    | apply keeps_steady_write_calibration
    | apply keeps_steady_flush ].
Qed.

Lemma keeps_steady_write_record_block (e : Element) : keeps steady (write_record e).
Proof.
  unfold write_record. cbv zeta.
  apply keeps_steady_bind; [intros w; apply steady_refl|]. intros c.
  destruct c; [|apply keeps_steady_ret].
  destruct (String.eqb (tag e) "REC"); [|apply keeps_steady_ret].
  apply keeps_steady_bind; [intros w; apply steady_refl|]. intros k.
  apply keeps_steady_bind.
  - destruct (negb k); [|apply keeps_steady_ret].
    apply keeps_steady_bind; [|intros _; apply keeps_steady_write_record].
    apply keeps_steady_for_each; intros key.
    apply keeps_steady_bind; [apply keeps_steady_write_record|].
    intros _ [sc tr lo cal kr' ro co xo tk rt]. unfold modify. steady_world.
  - intros _.
    repeat first
      [ apply keeps_steady_bind; [|intros _]
      | apply keeps_steady_for_each; intros ?
      | apply keeps_steady_write_record
      | apply keeps_steady_flush ].
Qed.

Section Forward.

Variable fromstring : string -> option Element.

Lemma keeps_steady_interpret (XML : string) : keeps steady (interpret fromstring XML).
Proof.
  unfold interpret, xml_fromstring.
  apply keeps_steady_bind; [apply keeps_steady_write_XML|]. intros _.
  apply keeps_steady_bind; [apply keeps_steady_write_XML|]. intros _.
  destruct (fromstring XML) as [e|].
  - apply keeps_steady_bind; [apply keeps_steady_ret|]. intros e'.
    apply keeps_steady_bind; [apply keeps_steady_note_calibration|]. intros _.
    apply keeps_steady_bind; [apply keeps_steady_write_calibration_block|]. intros _.
    apply keeps_steady_write_record_block.
  - apply keeps_steady_bind; [intros w; apply steady_refl|]. intros e'.
    apply keeps_steady_bind; [apply keeps_steady_note_calibration|]. intros _.
    apply keeps_steady_bind; [apply keeps_steady_write_calibration_block|]. intros _.
    apply keeps_steady_write_record_block.
Qed.

(** [parse_XML] is [fill_buffer], which touches [line_overflow] only, then
    the interpreter on each message. *)
Lemma parse_XML_forward (recv : string) (w : World) :
  moves_forward w (snd (parse_XML fromstring recv w)).
Proof.
  unfold parse_XML, bind, fill_buffer.
  destruct (fill_buffer_from (line_overflow w) recv) as [[buf|e] ov].
  - apply (moves_forward_trans w (set_line_overflow ov w)).
    + destruct w. unfold moves_forward. simpl.
      repeat split; auto using file_extends_refl.
      exists []. now rewrite app_nil_r.
    + apply (keeps_steady_for_each buf (interpret fromstring) keeps_steady_interpret).
  - simpl. destruct w. unfold moves_forward. simpl.
    repeat split; auto using file_extends_refl.
    exists []. now rewrite app_nil_r.
Qed.

(** X3: whether it returns or raises, [parse_XML] leaves the socket state
    and the thread objects alone, never closes, reopens or shortens an
    output file, only adds to what has been written and sent, and never
    takes [calibrated] or [keys_received] back to false. *)
Theorem parse_XML_moves_forward (recv : string) (w : World) :
  moves_forward w (snd (parse_XML fromstring recv w)).
Proof.
  destruct (parse_XML_forward recv w)
    as [Hs [Ht [Hr [Htx [Hc [Hk [Hro [Hco Hxo]]]]]]]].
  unfold moves_forward.
  split; [exact Hs|]. split; [exact Ht|]. split; [exact Hr|].
  split; [exact Htx|]. split; [exact Hc|]. split; [exact Hk|].
  split; [exact Hro|]. split; [exact Hco | exact Hxo].
Qed.

Lemma parse_XML_overflow_ok (recv : string) :
  preserves (fun w => overflow_ok (line_overflow w) = true) (parse_XML fromstring recv).
Proof.
  intros w H. unfold parse_XML, bind, fill_buffer.
  pose proof (fill_buffer_from_overflow_ok (line_overflow w) recv H) as Hov.
  destruct (fill_buffer_from (line_overflow w) recv) as [[buf|e] ov]; simpl in Hov.
  - destruct (keeps_steady_for_each buf (interpret fromstring) keeps_steady_interpret
                (set_line_overflow ov w)) as [_ Hlo].
    rewrite Hlo. exact Hov.
  - exact Hov.
Qed.

(** X4: [line_overflow] holds nothing, or one fragment that is not empty
    and does not end in '>'.  This is so when the module is loaded and it
    stays so through [fill_buffer], [parse_XML] and the worker loop,
    whether they return or raise. *)
Theorem line_overflow_at_most_one_tail :
  overflow_ok (line_overflow module_init) = true /\
  (forall recv w,
     overflow_ok (line_overflow w) = true ->
     overflow_ok (line_overflow (snd (fill_buffer recv w))) = true /\
     overflow_ok (line_overflow (snd (parse_XML fromstring recv w))) = true) /\
  (forall inputs w,
     overflow_ok (line_overflow w) = true ->
     overflow_ok (line_overflow (snd (run fromstring inputs w))) = true).
Proof.
  split; [reflexivity|]. split.
  - intros recv w H. split.
    + unfold fill_buffer.
      pose proof (fill_buffer_from_overflow_ok (line_overflow w) recv H) as Hov.
      destruct (fill_buffer_from (line_overflow w) recv) as [r ov]. exact Hov.
    + apply parse_XML_overflow_ok. exact H.
  - intros inputs w H. unfold run.
    apply (preserves_bind (fun w => overflow_ok (line_overflow w) = true));
      [apply preserves_modify; auto | | exact H].
    intros _. clear w H.
    induction inputs as [|[recv stop] more IH]; cbn [run_loop].
    + apply preserves_ret.
    + apply preserves_bind; [apply parse_XML_overflow_ok|]. intros _.
      apply preserves_bind.
      * destruct stop; [apply preserves_modify; auto | apply preserves_ret].
      * intros _. apply preserves_bind; [apply preserves_gets|].
        intros [[|]|]; [exact IH | apply preserves_ret | apply preserves_raise].
Qed.

End Forward.

Lemma line_overflow_at_most_one_tail_witness :
  overflow_ok (line_overflow
     (snd (parse_XML sample_fromstring (msg_SET ++ crlf ++ "<REC FPO") sample_session)))
  = true /\
  overflow_ok (line_overflow
     (snd (run sample_fromstring [((msg_SET ++ crlf ++ "<REC FPO")%string, false)]
             sample_session)))
  = true.
Proof.
  destruct (line_overflow_at_most_one_tail sample_fromstring) as [_ [H1 H2]].
  split.
  - apply (proj2 (H1 (msg_SET ++ crlf ++ "<REC FPO") sample_session eq_refl)).
  - apply H2. reflexivity.
Defined.

(** ** What [tx] frames, [fill_buffer] unframes *)

Lemma remove_CR_plain (s : string) : plain s = true -> remove_CR s = s.
Proof.
  induction s as [|c s IH]; intros H; [reflexivity|].
  simpl in H. apply andb_true_iff in H as [Hc Hs].
  apply andb_true_iff in Hc as [_ Hcr]. apply negb_true_iff in Hcr.
  simpl. rewrite Hcr, (IH Hs). reflexivity.
Qed.

Lemma rx_framed (m : string) : plain m = true -> rx (framed m) = m ++ nl.
Proof.
  intros H. unfold rx, framed. rewrite remove_CR_append, (remove_CR_plain m H).
  reflexivity.
Qed.

Lemma join_rx_framed (msgs : list string) :
  forallb terminated_message msgs = true ->
  join (map rx (map framed msgs)) = wire msgs /\
  forallb cut_inside (map framed msgs) = true.
Proof.
  induction msgs as [|m ms IH]; intros H; [split; reflexivity|].
  simpl in H. apply andb_true_iff in H as [Hm Hms].
  destruct (terminated_message_inv m Hm) as [Hp [_ _]].
  destruct (IH Hms) as [IH1 IH2].
  cbn [map join wire forallb]. rewrite IH1, IH2, (rx_framed m Hp).
  split; [now rewrite append_assoc|].
  unfold cut_inside. rewrite (rx_framed m Hp).
  change (m ++ nl) with (m ++ String LF "").
  unfold ends_with_GT. rewrite last_char_snoc.
  destruct m; reflexivity.
Qed.

Lemma for_each_tx (msgs : list string) (w : World) :
  sock_connected w = true ->
  for_each msgs tx w
  = (Ok tt, set_transmitted (transmitted w ++ map framed msgs)%list w).
Proof.
  revert w; induction msgs as [|m ms IH]; intros w H.
  - simpl. unfold ret. rewrite app_nil_r. destruct w; reflexivity.
  - cbn [for_each]. unfold bind, tx at 1. rewrite H.
    rewrite IH by (destruct w; exact H).
    destruct w; simpl. unfold set_transmitted; simpl.
    rewrite <- app_assoc. reflexivity.
Qed.

(** X5: the line end that [tx] appends is the one [rx] and [fill_buffer]
    undo.  Sent over a connected socket, statements of 7-bit text that end
    in '>' and hold no line end reach the wire one [framed] entry each; read
    back one entry per call, with nothing pending, they come out of
    [fill_buffer] as the statements themselves, in order, with nothing left
    pending. *)
Theorem tx_frames_what_fill_buffer_unframes (msgs : list string) (w : World) :
  forallb seven_bit msgs = true ->
  forallb terminated_message msgs = true ->
  sock_connected w = true ->
  line_overflow w = [] ->
  exists w',
    for_each msgs tx w = (Ok tt, w') /\
    transmitted w' = (transmitted w ++ map framed msgs)%list /\
    feed (map framed msgs) w' = (Ok msgs, w').
Proof.
  intros _ Hall Hsock Hov.
  exists (set_transmitted (transmitted w ++ map framed msgs)%list w).
  split; [apply for_each_tx; exact Hsock|]. split; [reflexivity|].
  destruct (join_rx_framed msgs Hall) as [Hjoin Hcut].
  set (w' := set_transmitted (transmitted w ++ map framed msgs)%list w).
  assert (Hov' : line_overflow w' = []) by exact Hov.
  rewrite (feed_wire (map framed msgs) msgs "" w' Hall Hjoin eq_refl eq_refl Hcut Hov').
  rewrite (set_line_overflow_empty w' Hov'). reflexivity.
Qed.

Lemma tx_frames_what_fill_buffer_unframes_witness :
  exists w',
    for_each [msg_SET; msg_REC] tx sample_session = (Ok tt, w') /\
    transmitted w' = (transmitted sample_session ++ map framed [msg_SET; msg_REC])%list /\
    feed (map framed [msg_SET; msg_REC]) w' = (Ok [msg_SET; msg_REC], w').
Proof.
  apply (tx_frames_what_fill_buffer_unframes [msg_SET; msg_REC] sample_session);
    reflexivity.
Defined.

(** ** Starting and stopping *)

(** X6: when the socket is not connected and the server cannot be reached,
    a call of [start_eyetracking] that returns has done one thing: the
    three output files are opened anew, empty.  No command is sent, no
    thread is started, and the flags and the pending tail are as before. *)
Theorem start_without_connection (output_filename : string) (w : World) :
  sock_connected w = false ->
  fst (start_eyetracking output_filename false w) = Ok tt ->
  start_eyetracking output_filename false w
  = (Ok tt, with_fresh_outputs output_filename w).
Proof.
  intros H _. destruct w as [sc tr lo cal kr ro co xo tk rt]. simpl in H. subst sc.
  reflexivity.
Qed.

Lemma start_without_connection_witness :
  start_eyetracking "out" false module_init
  = (Ok tt, with_fresh_outputs "out" module_init).
Proof.
  apply (start_without_connection "out" module_init); reflexivity.
Defined.

(** X8: [stop_eyetracking] returns normally exactly when [record_output]
    and [calibration_output] are bound, that is once [start_eyetracking]
    has been called; before that it raises NameError.  Either way it has by
    then reset [calibrated], asked the thread to stop, put a new thread
    object in [tracker] and closed the socket. *)
Theorem stop_needs_the_outputs_bound (w : World) :
  (is_bound (record_output w) && is_bound (calibration_output w) = true ->
   fst (stop_eyetracking w) = Ok tt) /\
  (is_bound (record_output w) && is_bound (calibration_output w) = false ->
   fst (stop_eyetracking w) = Raise NameError) /\
  calibrated (snd (stop_eyetracking w)) = false /\
  sock_connected (snd (stop_eyetracking w)) = false /\
  tracker (snd (stop_eyetracking w)) = mkWorker false None /\
  replaced_trackers (snd (stop_eyetracking w))
    = mkWorker (started (tracker w)) (Some false) :: replaced_trackers w.
Proof.
  destruct w as [sc tr lo cal kr [ro|] [co|] xo tk rt];
    (split; [intros H; try discriminate H; reflexivity|]);
    (split; [intros H; try discriminate H; reflexivity|]);
    repeat split; reflexivity.
Qed.

Lemma stop_needs_the_outputs_bound_witness :
  fst (stop_eyetracking sample_session) = Ok tt /\
  fst (stop_eyetracking module_init) = Raise NameError.
Proof.
  split.
  - apply (proj1 (stop_needs_the_outputs_bound sample_session)). reflexivity.
  - apply (proj1 (proj2 (stop_needs_the_outputs_bound module_init))). reflexivity.
Defined.

(** X9: a second [stop_eyetracking] right after one that returned also
    returns, and changes nothing but the list of thread objects it has
    replaced: closing a closed file does nothing, and the flags and the
    socket are already reset. *)
Theorem stop_twice_changes_no_sink (w : World) :
  fst (stop_eyetracking w) = Ok tt ->
  stop_eyetracking (snd (stop_eyetracking w))
  = (Ok tt,
     set_replaced_trackers
       (mkWorker false (Some false) :: replaced_trackers (snd (stop_eyetracking w)))
       (snd (stop_eyetracking w))).
Proof.
  destruct w as [sc tr lo cal kr [[rp rc rw]|] [[cp cc cw]|] xo tk rt];
    intros H; try discriminate H; reflexivity.
Qed.

Lemma stop_twice_changes_no_sink_witness :
  stop_eyetracking (snd (stop_eyetracking recorded_session))
  = (Ok tt,
     set_replaced_trackers
       (mkWorker false (Some false)
          :: replaced_trackers (snd (stop_eyetracking recorded_session)))
       (snd (stop_eyetracking recorded_session))).
Proof.
  apply (stop_twice_changes_no_sink recorded_session). reflexivity.
Defined.

(** X10: [stop_eyetracking] and [start_eyetracking] do not assign
    [line_overflow].  A tail that is pending when a session is stopped is
    put in front of the first fragment the next session receives. *)
Theorem pending_tail_outlives_session
    (w : World) (output_filename : string) (reachable : bool)
    (recv pending first : string) (more others : list string) :
  line_overflow w = pending :: more ->
  splitlines (rx recv) = first :: others ->
  line_overflow (snd (stop_eyetracking w)) = pending :: more /\
  line_overflow (snd (start_eyetracking output_filename reachable
                        (snd (stop_eyetracking w)))) = pending :: more /\
  fst (fill_buffer recv (snd (start_eyetracking output_filename reachable
                                (snd (stop_eyetracking w)))))
  = fst (for_lines ((pending ++ first) :: others) [] []).
Proof.
  intros Hov Hsplit.
  assert (H1 : forall v, line_overflow (snd (stop_eyetracking v)) = line_overflow v).
  { intros [sc tr lo cal kr [ro|] [co|] xo tk rt]; reflexivity. }
  assert (H2 : forall v, line_overflow (snd (start_eyetracking output_filename reachable v))
                         = line_overflow v).
  { intros [sc tr lo cal kr ro co xo [st ir] rt].
    destruct sc, reachable, st; vm_compute; reflexivity. }
  rewrite H2, H1, Hov. split; [reflexivity|]. split; [reflexivity|].
  unfold fill_buffer. rewrite H2, H1, Hov.
  unfold fill_buffer_from. rewrite Hsplit. cbv zeta.
  destruct (for_lines ((pending ++ first) :: others) [] []). reflexivity.
Qed.

Lemma pending_tail_outlives_session_witness :
  fst (fill_buffer (msg_SET ++ crlf)
         (snd (start_eyetracking "again" true
            (snd (stop_eyetracking
               (snd (parse_XML sample_fromstring "<REC FPO" sample_session)))))))
  = fst (for_lines [("<REC FPO" ++ msg_SET)%string] [] []).
Proof.
  apply (pending_tail_outlives_session
           (snd (parse_XML sample_fromstring "<REC FPO" sample_session))
           "again" true (msg_SET ++ crlf) "<REC FPO" msg_SET [] []);
    reflexivity.
Defined.

Section Session.

Variable fromstring : string -> option Element.

Lemma tracker_guarded_forward (w w' : World) :
  sock_connected w' = sock_connected w ->
  started (tracker w') = started (tracker w) ->
  tracker_guarded w = true -> tracker_guarded w' = true.
Proof. unfold tracker_guarded. intros -> ->. auto. Qed.

Lemma parse_XML_tracker_guarded (recv : string) :
  preserves (fun w => tracker_guarded w = true) (parse_XML fromstring recv).
Proof.
  intros w H.
  destruct (parse_XML_forward fromstring recv w) as [Hs [Ht _]].
  apply (tracker_guarded_forward w); [exact Hs | now rewrite Ht | exact H].
Qed.

(** X11: a thread object that has been started always belongs to a
    connected socket.  This holds when the module is loaded and through
    every function, whatever the outcome.  It is why [start_eyetracking]
    does not raise RuntimeError: it calls [tracker.start()] only after
    [connect()] succeeded, which needs a socket that was not connected,
    hence a thread not yet started. *)
Theorem started_thread_has_connected_socket :
  tracker_guarded module_init = true /\
  (forall output_filename reachable w,
     tracker_guarded w = true ->
     tracker_guarded (snd (start_eyetracking output_filename reachable w)) = true /\
     fst (start_eyetracking output_filename reachable w) <> Raise RuntimeError) /\
  (forall w, tracker_guarded (snd (stop_eyetracking w)) = true) /\
  (forall recv w,
     tracker_guarded w = true ->
     tracker_guarded (snd (parse_XML fromstring recv w)) = true) /\
  (forall inputs w,
     tracker_guarded w = true ->
     tracker_guarded (snd (run fromstring inputs w)) = true).
Proof.
  split; [reflexivity|]. split; [|split; [|split]].
  - intros name reachable [sc tr lo cal kr ro co xo [st ir] rt] H.
    unfold tracker_guarded in H. simpl in H.
    destruct sc, reachable, st; try discriminate H;
      (split; [vm_compute; reflexivity | vm_compute; discriminate]).
  - intros [sc tr lo cal kr [ro|] [co|] xo tk rt]; reflexivity.
  - intros recv w H. apply parse_XML_tracker_guarded. exact H.
  - intros inputs w H. unfold run.
    apply (preserves_bind (fun w => tracker_guarded w = true)); [| | exact H].
    + apply preserves_modify. intros v Hv. destruct v; exact Hv.
    + intros _. clear w H.
      induction inputs as [|[recv stop] more IH]; cbn [run_loop].
      * apply preserves_ret.
      * apply preserves_bind; [apply parse_XML_tracker_guarded|]. intros _.
        apply preserves_bind.
        -- destruct stop; [|apply preserves_ret].
           apply preserves_modify. intros v Hv. destruct v; exact Hv.
        -- intros _. apply preserves_bind; [apply preserves_gets|].
           intros [[|]|]; [exact IH | apply preserves_ret | apply preserves_raise].
Qed.

(** ** More on the interpreter *)

Lemma note_calibration_other (e : Element) (w : World) :
  is_calib_result e = false -> note_calibration e w = (Ok tt, w).
Proof.
  unfold note_calibration, is_calib_result. cbv zeta. intros H.
  destruct (mem_key "ID" (el_keys e)) eqn:Hm; [|reflexivity].
  destruct (mem_key_dict_get _ _ Hm) as [v Hv]. rewrite Hv in *.
  simpl in H. rewrite H. reflexivity.
Qed.

Lemma for_each_interpret_calibration (msgs : list string) :
  forall els w,
    session_live w = true ->
    parse_all fromstring msgs = Some els ->
    exists w',
      for_each msgs (interpret fromstring) w = (Ok tt, w') /\
      file_written (calibration_output w') =
        (file_written (calibration_output w) ++
         flat_map (fun e => row (el_keys e) ++ row (el_values e)) (filter is_CAL els))%list.
Proof.
  induction msgs as [|m ms IH]; intros els w Hlive Hparse; simpl in Hparse.
  - injection Hparse as <-. exists w. simpl. rewrite app_nil_r. auto.
  - destruct (fromstring m) as [e|] eqn:He; [|discriminate].
    destruct (parse_all fromstring ms) as [es|] eqn:Hes; [|discriminate].
    injection Hparse as <-.
    destruct (interpret_live fromstring m e w Hlive He)
      as [w1 [Hrun [Hlive1 [_ [_ [_ [Hcal _]]]]]]].
    destruct (IH es w1 Hlive1 eq_refl) as [w' [Hrun' Hcal']].
    exists w'. cbn [for_each]. unfold bind. rewrite Hrun.
    split; [exact Hrun'|].
    rewrite Hcal', Hcal. cbn [filter].
    destruct (is_CAL e); cbn [flat_map]; rewrite <- ?app_assoc, ?app_nil_r; reflexivity.
Qed.

(** X12: in a live session, after a run of messages that all parse, the
    raw-message file has received every message followed by a newline, in
    order, and the calibration file has received, for every CAL message, a
    row of its attribute names and a row of its values: the names are
    repeated for each CAL message, there is no header flag for this file. *)
Theorem raw_log_and_calibration_rows
    (msgs : list string) (els : list Element) (w : World) :
  session_live w = true ->
  parse_all fromstring msgs = Some els ->
  exists w',
    for_each msgs (interpret fromstring) w = (Ok tt, w') /\
    file_written (XML_output w') =
      (file_written (XML_output w) ++ flat_map (fun m => [m; nl]) msgs)%list /\
    file_written (calibration_output w') =
      (file_written (calibration_output w) ++
       flat_map (fun e => row (el_keys e) ++ row (el_values e)) (filter is_CAL els))%list.
Proof.
  intros Hlive Hparse.
  destruct (for_each_interpret_live fromstring msgs els w Hlive Hparse)
    as [w' [Hrun [_ [_ [_ Hxml]]]]].
  destruct (for_each_interpret_calibration msgs els w Hlive Hparse)
    as [w'' [Hrun' Hcal]].
  rewrite Hrun in Hrun'. injection Hrun' as <-.
  exists w'. auto.
Qed.

(** X13: a message that parses, is no calibration result, is not tagged CAL
    and is not a REC message arriving once [calibrated] is true, changes
    one thing: it is appended, with a newline, to the raw-message file.
    For this the raw-message file must be open; the other files and the
    socket may be in any state. *)
Theorem other_messages_reach_the_raw_log_only
    (XML : string) (e : Element) (w : World) (f : file) :
  XML_output w = Some f ->
  closed f = false ->
  fromstring XML = Some e ->
  is_calib_result e = false ->
  is_CAL e = false ->
  is_REC e = false \/ calibrated w = false ->
  interpret fromstring XML w
  = (Ok tt, set_XML_output (Some (mkfile (path f) false (written f ++ [XML; nl])%list)) w).
Proof.
  intros Hx Hc He Hid Hcal Hrec.
  destruct w as [sc tr lo cal kr ro co xo tk rt]. simpl in Hx, Hrec. subst xo.
  destruct f as [p c wr]. simpl in Hc. subst c.
  unfold interpret, xml_fromstring. rewrite He.
  unfold bind at 1, file_write at 1. simpl.
  unfold bind at 1, file_write at 1. simpl. unfold set_XML_output. simpl.
  unfold bind at 1, ret at 1.
  unfold bind at 1. rewrite (note_calibration_other e _ Hid).
  unfold bind at 1. unfold write_calibration. cbv zeta.
  unfold is_CAL in Hcal. rewrite Hcal. unfold ret at 1.
  unfold write_record. cbv zeta. unfold bind, gets. simpl.
  rewrite <- app_assoc. simpl.
  destruct Hrec as [Hrec | Hrec].
  - unfold is_REC in Hrec. rewrite Hrec. destruct cal; reflexivity.
  - subst cal. reflexivity.
Qed.

(** ** More on the worker loop *)

Lemma run_loop_unstopped (recvs : list string) (w : World) :
  is_running (tracker w) = Some true ->
  run_loop fromstring (map (fun recv => (recv, false)) recvs) w
  = for_each recvs (parse_XML fromstring) w.
Proof.
  revert w; induction recvs as [|recv more IH]; intros w H; [reflexivity|].
  cbn [map run_loop for_each]. unfold XML_callback. unfold bind at 1 4.
  pose proof (parse_XML_forward fromstring recv w) as [_ [Ht _]].
  destruct (parse_XML fromstring recv w) as [[[]|e] w1]; [|reflexivity].
  simpl in Ht.
  unfold bind at 1, ret at 1. unfold bind at 1, gets at 1.
  rewrite Ht, H. apply IH. rewrite Ht. exact H.
Qed.

(** X14: as long as nobody asks it to stop, the worker loop is [parse_XML]
    called once per chunk received, in order, and it ends with the first
    exception that [parse_XML] raises. *)
Theorem run_is_parse_XML_per_chunk (recvs : list string) (w : World) :
  run fromstring (map (fun recv => (recv, false)) recvs) w
  = for_each recvs (parse_XML fromstring)
      (set_tracker (mkWorker (started (tracker w)) (Some true)) w).
Proof.
  unfold run, bind at 1, modify. apply run_loop_unstopped. reflexivity.
Qed.

(** X15: a stop request that lands while the loop handles a chunk lets that
    call of [parse_XML] finish, after which the loop ends: the chunks that
    follow are not read.  All that the request changes in the globals is
    the flag of the thread object. *)
Theorem stop_request_ends_loop_after_chunk
    (recv : string) (more : list (string * bool)) (w : World) :
  let w0 := set_tracker (mkWorker (started (tracker w)) (Some true)) w in
  fst (parse_XML fromstring recv w0) = Ok tt ->
  run fromstring ((recv, true) :: more) w
  = (Ok tt,
     set_tracker (mkWorker (started (tracker w)) (Some false))
       (snd (parse_XML fromstring recv w0))).
Proof.
  intros w0 H. unfold run, bind at 1, modify. fold w0.
  cbn [run_loop]. unfold XML_callback. unfold bind at 1.
  pose proof (parse_XML_forward fromstring recv w0) as [_ [Ht _]].
  destruct (parse_XML fromstring recv w0) as [[[]|e] w1]; [|discriminate].
  simpl in Ht |- *.
  unfold bind at 1, stop_running, modify. rewrite Ht.
  unfold bind, gets. destruct w; reflexivity.
Qed.

End Session.

Lemma started_thread_has_connected_socket_witness :
  tracker_guarded (snd (start_eyetracking "again" true sample_session)) = true /\
  fst (start_eyetracking "again" true sample_session) <> Raise RuntimeError /\
  tracker_guarded (snd (run sample_fromstring [((msg_SET ++ crlf)%string, true)]
                          sample_session)) = true.
Proof.
  destruct (started_thread_has_connected_socket sample_fromstring)
    as [_ [H1 [_ [_ H2]]]].
  destruct (H1 "again" true sample_session eq_refl) as [Hg Hr].
  split; [exact Hg|]. split; [exact Hr|].
  apply H2. reflexivity.
Defined.

Lemma raw_log_and_calibration_rows_witness :
  exists w',
    for_each [msg_CAL; msg_REC; msg_CAL] (interpret sample_fromstring) sample_session
      = (Ok tt, w') /\
    file_written (XML_output w') = [msg_CAL; nl; msg_REC; nl; msg_CAL; nl] /\
    file_written (calibration_output w')
      = ["ID,"; "AVE_ERROR,"; nl; "CALIB_RESULT,"; "0.5,"; nl;
         "ID,"; "AVE_ERROR,"; nl; "CALIB_RESULT,"; "0.5,"; nl].
Proof.
  apply (raw_log_and_calibration_rows sample_fromstring
           [msg_CAL; msg_REC; msg_CAL]
           [mkElement "CAL" [("ID", "CALIB_RESULT"); ("AVE_ERROR", "0.5")];
            mkElement "REC" [("FPOGX", "0.4"); ("FPOGY", "0.6")];
            mkElement "CAL" [("ID", "CALIB_RESULT"); ("AVE_ERROR", "0.5")]]
           sample_session); reflexivity.
Defined.

Lemma other_messages_reach_the_raw_log_only_witness :
  interpret sample_fromstring msg_REC (snd (stop_eyetracking sample_session))
  = (Ok tt,
     set_XML_output (Some (mkfile "out_xml.csv" false [msg_REC; nl]))
       (snd (stop_eyetracking sample_session))).
Proof.
  apply (other_messages_reach_the_raw_log_only sample_fromstring msg_REC
           (mkElement "REC" [("FPOGX", "0.4"); ("FPOGY", "0.6")])
           (snd (stop_eyetracking sample_session))
           (mkfile "out_xml.csv" false [])); try reflexivity.
  right. reflexivity.
Defined.

Lemma stop_request_ends_loop_after_chunk_witness :
  fst (run sample_fromstring
         [((msg_CAL ++ crlf)%string, true); (stream_with_bad_line, false)]
         sample_session) = Ok tt.
Proof.
  rewrite (stop_request_ends_loop_after_chunk sample_fromstring
             (msg_CAL ++ crlf) [(stream_with_bad_line, false)] sample_session).
  - reflexivity.
  - vm_compute. reflexivity.
Defined.

(** ** After the session has been stopped *)

Section Stopped.

Variable fromstring : string -> option Element.

(** X16: no function of the module closes the raw-message file.  Once
    [start_eyetracking] has opened it, it is open after every later call,
    [stop_eyetracking] included, so a worker that is still in its loop
    keeps writing to it. *)
Theorem XML_output_stays_open :
  (forall output_filename reachable w,
     is_open (XML_output (snd (start_eyetracking output_filename reachable w))) = true) /\
  (forall w, is_open (XML_output w) = true ->
     is_open (XML_output (snd (stop_eyetracking w))) = true) /\
  (forall recv w, is_open (XML_output w) = true ->
     is_open (XML_output (snd (parse_XML fromstring recv w))) = true) /\
  (forall inputs w, is_open (XML_output w) = true ->
     is_open (XML_output (snd (run fromstring inputs w))) = true).
Proof.
  assert (Hp : forall recv,
            preserves (fun w => is_open (XML_output w) = true) (parse_XML fromstring recv)).
  { intros recv w H.
    destruct (parse_XML_forward fromstring recv w)
      as [_ [_ [_ [_ [_ [_ [_ [_ Hx]]]]]]]].
    destruct (XML_output w) as [a|]; [|discriminate].
    destruct (XML_output (snd (parse_XML fromstring recv w))) as [b|]; [|contradiction].
    destruct Hx as [_ [Hc _]]. simpl in *. congruence. }
  split; [|split; [|split]].
  - intros name reachable [sc tr lo cal kr ro co xo [st ir] rt].
    destruct sc, reachable, st; vm_compute; reflexivity.
  - intros [sc tr lo cal kr [ro|] [co|] xo tk rt] H; exact H.
  - intros recv w H. apply Hp. exact H.
  - intros inputs w H. unfold run.
    apply (preserves_bind (fun w => is_open (XML_output w) = true)); [| | exact H].
    + apply preserves_modify. intros v Hv. destruct v; exact Hv.
    + intros _. clear w H.
      induction inputs as [|[recv stop] more IH]; cbn [run_loop].
      * apply preserves_ret.
      * apply preserves_bind; [apply Hp|]. intros _.
        apply preserves_bind.
        -- destruct stop; [|apply preserves_ret].
           apply preserves_modify. intros v Hv. destruct v; exact Hv.
        -- intros _. apply preserves_bind; [apply preserves_gets|].
           intros [[|]|]; [exact IH | apply preserves_ret | apply preserves_raise].
Qed.

(** X17: the hide-overlay command is sent before [calibrated] is assigned.
    When the socket is not connected, as after [stop_eyetracking], a
    calibration result is written to the raw-message file and then raises
    SocketError: [calibrated] keeps its value and no other file is
    written. *)
Theorem calibration_result_without_socket
    (XML : string) (e : Element) (w : World) (f : file) :
  sock_connected w = false ->
  XML_output w = Some f ->
  closed f = false ->
  fromstring XML = Some e ->
  is_calib_result e = true ->
  interpret fromstring XML w
  = (Raise SocketError,
     set_XML_output (Some (mkfile (path f) false (written f ++ [XML; nl])%list)) w).
Proof.
  intros Hs Hx Hc He Hid.
  destruct w as [sc tr lo cal kr ro co xo tk rt]. simpl in Hs, Hx. subst sc xo.
  destruct f as [p c wr]. simpl in Hc. subst c.
  unfold interpret, xml_fromstring. rewrite He.
  unfold bind at 1, file_write at 1. simpl.
  unfold bind at 1, file_write at 1. simpl. unfold set_XML_output. simpl.
  unfold bind at 1, ret at 1.
  unfold bind at 1. unfold note_calibration. cbv zeta.
  unfold is_calib_result in Hid. apply andb_true_iff in Hid as [Hm Hv].
  rewrite Hm. destruct (dict_get "ID" (attrib e)) as [v|]; [|discriminate].
  rewrite Hv. unfold bind, tx. simpl. rewrite <- app_assoc. reflexivity.
Qed.

End Stopped.

Lemma XML_output_stays_open_witness :
  is_open (XML_output (snd (stop_eyetracking sample_session))) = true /\
  is_open (XML_output
    (snd (run sample_fromstring [(stream_with_bad_line, false)]
            (snd (stop_eyetracking sample_session))))) = true.
Proof.
  destruct (XML_output_stays_open sample_fromstring) as [_ [H1 [_ H2]]].
  split.
  - apply H1. reflexivity.
  - apply H2. reflexivity.
Defined.

Lemma calibration_result_without_socket_witness :
  interpret sample_fromstring msg_CAL (snd (stop_eyetracking sample_session))
  = (Raise SocketError,
     set_XML_output (Some (mkfile "out_xml.csv" false [msg_CAL; nl]))
       (snd (stop_eyetracking sample_session))).
Proof.
  apply (calibration_result_without_socket sample_fromstring msg_CAL
           (mkElement "CAL" [("ID", "CALIB_RESULT"); ("AVE_ERROR", "0.5")])
           (snd (stop_eyetracking sample_session))
           (mkfile "out_xml.csv" false [])); reflexivity.
Defined.

(** ** More on the two threads *)

(** X18: under every schedule the lock is held by the thread that stands
    between its [acquire] and its [release] and by nobody otherwise; the
    worker and the caller are never both between the two. *)
Theorem lock_excludes_the_other_thread (schedule : list thread) :
  lock_consistent (exec schedule started_config) = true /\
  worker_inside (wpc (exec schedule started_config)) &&
  caller_inside (cpc (exec schedule started_config)) = false.
Proof.
  assert (H : forall s c,
            lock_consistent c = true ->
            unguarded c = (match wpc c with W_assign_true => 0 | _ => 1 end) ->
            lock_consistent (exec s c) = true).
  { induction s as [|t s IH]; intros c Hl Hu; simpl; [exact Hl|].
    destruct (step t c) as [c'|] eqn:E; [|apply IH; assumption].
    destruct (step_lock_consistent t c c' Hl Hu E) as [Hl' Hu']. apply IH; assumption. }
  specialize (H schedule started_config eq_refl eq_refl).
  split; [exact H|].
  unfold lock_consistent in H.
  destruct (lock (exec schedule started_config)) as [[|]|];
    destruct (worker_inside (wpc (exec schedule started_config)));
    destruct (caller_inside (cpc (exec schedule started_config)));
    simpl in *; congruence.
Qed.

(** The worker is past the first statement of [run], and once the caller
    has assigned the flag it is false. *)
Lemma past_first_statement_step (t : thread) (c c' : config) :
  wpc c <> W_assign_true ->
  lock_consistent c = true ->
  (caller_inside (cpc c) = false -> cpc c = C_returned -> flag c = Some false) ->
  (cpc c = C_release -> flag c = Some false) ->
  step t c = Some c' ->
  wpc c' <> W_assign_true /\
  lock_consistent c' = true /\
  (caller_inside (cpc c') = false -> cpc c' = C_returned -> flag c' = Some false) /\
  (cpc c' = C_release -> flag c' = Some false).
Proof.
  destruct c as [l f w p u]. unfold lock_consistent. simpl.
  intros Hw Hl Hret Hrel Hs.
  destruct t; simpl in Hs.
  - unfold worker_step in Hs. simpl in Hs.
    destruct w; try congruence;
      destruct l as [[|]|]; destruct p; simpl in Hl; try discriminate;
      try (destruct f as [[|]|]; try discriminate);
      injection Hs as <-; simpl;
      (split; [discriminate|]); (split; [reflexivity|]);
      split; intros; try discriminate; auto.
  - unfold caller_step in Hs. simpl in Hs.
    destruct p; destruct l as [[|]|]; destruct w; simpl in Hl; try discriminate;
      try congruence;
      injection Hs as <-; simpl;
      (split; [discriminate|]); (split; [reflexivity|]);
      split; intros; try discriminate; auto.
Qed.

Lemma past_first_statement_exec (schedule : list thread) (c : config) :
  wpc c <> W_assign_true ->
  lock_consistent c = true ->
  (caller_inside (cpc c) = false -> cpc c = C_returned -> flag c = Some false) ->
  (cpc c = C_release -> flag c = Some false) ->
  wpc (exec schedule c) <> W_assign_true /\
  lock_consistent (exec schedule c) = true /\
  (cpc (exec schedule c) = C_returned -> flag (exec schedule c) = Some false).
Proof.
  revert c; induction schedule as [|t s IH]; intros c Hw Hl Hret Hrel; simpl.
  - split; [exact Hw|]. split; [exact Hl|]. intros H. apply Hret; [|exact H].
    rewrite H. reflexivity.
  - destruct (step t c) as [c'|] eqn:E; [|apply IH; assumption].
    destruct (past_first_statement_step t c c' Hw Hl Hret Hrel E)
      as [Hw' [Hl' [Hret' Hrel']]].
    apply IH; assumption.
Qed.

(** X19: a stop request is lost only before the first statement of [run].
    If the worker has executed that statement before the caller enters
    [stop_running], then under every schedule, once [stop_running] has
    returned the flag is false, and the worker leaves its loop within five
    steps of its own. *)
Theorem stop_after_first_statement_is_honoured (schedule : list thread) (c : config) :
  wpc c <> W_assign_true ->
  cpc c = C_acquire ->
  lock_consistent c = true ->
  cpc (exec schedule c) = C_returned ->
  flag (exec schedule c) = Some false /\
  wpc (exec (repeat Worker 5) (exec schedule c)) = W_finished.
Proof.
  intros Hw Hc Hl Hret.
  destruct (past_first_statement_exec schedule c Hw Hl) as [Hw' [Hl' Hf]].
  - rewrite Hc. discriminate.
  - rewrite Hc. discriminate.
  - specialize (Hf Hret). split; [exact Hf|].
    destruct (exec schedule c) as [l f w p u]. simpl in *. subst p f.
    unfold lock_consistent in Hl'. simpl in Hl'.
    destruct w; try congruence; destruct l as [[|]|]; simpl in Hl'; try discriminate;
      reflexivity.
Qed.

Lemma stop_after_first_statement_is_honoured_witness :
  flag (exec [Caller; Worker; Caller; Worker; Caller]
          (exec [Worker] started_config)) = Some false /\
  wpc (exec (repeat Worker 5)
         (exec [Caller; Worker; Caller; Worker; Caller]
            (exec [Worker] started_config))) = W_finished.
Proof.
  apply (stop_after_first_statement_is_honoured
           [Caller; Worker; Caller; Worker; Caller] (exec [Worker] started_config)).
  - vm_compute. discriminate.
  - reflexivity.
  - reflexivity.
  - reflexivity.
Defined.


(** ** A cut at the line end *)

Lemma fill_buffer_one_statement (m recv : string) (w : World) :
  terminated_message m = true ->
  rx recv = m ->
  line_overflow w = [] ->
  fill_buffer recv w = (Ok [m], w).
Proof.
  intros Hm Hrx Hov.
  destruct (terminated_message_inv m Hm) as [Hp [He Hne]].
  unfold fill_buffer, fill_buffer_from. rewrite Hov, Hrx. cbv zeta.
  rewrite (splitlines_plain m Hp Hne). cbn [for_lines].
  unfold ends_with_GT in He.
  destruct (last_char m) as [c|]; [|discriminate].
  rewrite He. simpl. rewrite (set_line_overflow_empty w Hov). reflexivity.
Qed.

Lemma fill_buffer_leading_newline (recv rest : string) (w : World) :
  rx recv = String LF rest ->
  line_overflow w = [] ->
  fill_buffer recv w = (Raise IndexError, w).
Proof.
  intros Hrx Hov.
  unfold fill_buffer, fill_buffer_from. rewrite Hov, Hrx. cbv zeta.
  simpl. rewrite (set_line_overflow_empty w Hov). reflexivity.
Qed.

(** C1: statements of 7-bit text that end in '>' and hold no line end, each
    sent with its carriage return and newline, are all returned when the
    stream arrives as one chunk.  The same bytes cut between the carriage return and the
    newline that end the first statement, or right after its closing '>',
    make the second call of [fill_buffer] raise IndexError: the chunk then
    starts with a newline while nothing is pending, and the loop indexes
    the last character of the empty fragment in front of it. *)
Theorem reassembly_raises_when_cut_in_line_end
    (m : string) (msgs : list string) (w : World) :
  forallb seven_bit (m :: msgs) = true ->
  forallb terminated_message (m :: msgs) = true ->
  line_overflow w = [] ->
  join [m ++ String CR EmptyString; nl ++ join (map framed msgs)]
    = join (map framed (m :: msgs)) /\
  join [m; crlf ++ join (map framed msgs)] = join (map framed (m :: msgs)) /\
  fill_buffer (join (map framed (m :: msgs))) w = (Ok (m :: msgs), w) /\
  fst (feed [m ++ String CR EmptyString; nl ++ join (map framed msgs)] w)
    = Raise IndexError /\
  fst (feed [m; crlf ++ join (map framed msgs)] w) = Raise IndexError.
Proof.
  intros _ Hall Hov.
  pose proof Hall as Hall'. cbn [forallb] in Hall'.
  apply andb_true_iff in Hall' as [Hm _].
  destruct (terminated_message_inv m Hm) as [Hp _].
  split; [|split; [|split; [|split]]].
  - cbn [join map]. unfold framed at 2, crlf, nl.
    rewrite !append_assoc, append_empty_r. reflexivity.
  - cbn [join map]. unfold framed at 2.
    rewrite !append_assoc, append_empty_r. reflexivity.
  - destruct (join_rx_framed (m :: msgs) Hall) as [Hjoin Hcut].
    assert (Hrx : rx (join (map framed (m :: msgs))) = wire (m :: msgs))
      by (rewrite rx_join; exact Hjoin).
    apply (reassembly_of_inside_cuts (map framed (m :: msgs)) (m :: msgs) w
             Hall Hrx Hcut Hov).
  - cbn [feed]. unfold bind at 1.
    rewrite (fill_buffer_one_statement m (m ++ String CR EmptyString) w Hm);
      [| | exact Hov].
    + cbv beta iota. unfold bind.
      rewrite (fill_buffer_leading_newline (nl ++ join (map framed msgs))
                 (rx (join (map framed msgs))) w); [reflexivity | reflexivity | exact Hov].
    + unfold rx. rewrite remove_CR_append, (remove_CR_plain m Hp).
      apply append_empty_r.
  - cbn [feed]. unfold bind at 1.
    rewrite (fill_buffer_one_statement m m w Hm); [| | exact Hov].
    + cbv beta iota. unfold bind.
      rewrite (fill_buffer_leading_newline (crlf ++ join (map framed msgs))
                 (rx (join (map framed msgs))) w); [reflexivity | reflexivity | exact Hov].
    + apply (remove_CR_plain m Hp).
Qed.

Lemma reassembly_raises_when_cut_in_line_end_witness :
  fill_buffer (join (map framed [msg_SET; msg_REC])) module_init
    = (Ok [msg_SET; msg_REC], module_init) /\
  fst (feed chunks_cut_in_line_end module_init) = Raise IndexError /\
  fst (feed [msg_SET; crlf ++ join (map framed [msg_REC])] module_init)
    = Raise IndexError.
Proof.
  destruct (reassembly_raises_when_cut_in_line_end msg_SET [msg_REC] module_init
              eq_refl eq_refl eq_refl) as [_ [_ [Hwhole [Hmid Hafter]]]].
  split; [exact Hwhole|]. split; [exact Hmid | exact Hafter].
Defined.

(** C7: a chunk whose last fragment is unterminated, with two line ends in
    a row before it.  [fill_buffer] raises IndexError on the empty fragment
    before it reaches the last one: the tail is not stored, and the next
    call returns the remainder alone, not the joined message.  And with the
    tail stored by a first call, a next chunk that brings the remainder and
    then two line ends in a row raises after the join: the joined message
    is in no buffer returned and the tail is gone.  Without the doubled line
    end the tail is kept and the join is returned once. *)
Theorem tail_lost_on_empty_fragment :
  splitlines (rx (msg_SET ++ crlf ++ crlf ++ "<REC FPO"))
    = [msg_SET; ""; "<REC FPO"] /\
  fill_buffer (msg_SET ++ crlf ++ crlf ++ "<REC FPO") module_init
    = (Raise IndexError, module_init) /\
  fill_buffer ("GX='0.4' FPOGY='0.6' />" ++ crlf)
    (snd (fill_buffer (msg_SET ++ crlf ++ crlf ++ "<REC FPO") module_init))
    = (Ok ["GX='0.4' FPOGY='0.6' />"], module_init) /\
  fill_buffer (msg_SET ++ crlf ++ "<REC FPO") module_init
    = (Ok [msg_SET], set_line_overflow ["<REC FPO"] module_init) /\
  fill_buffer ("GX='0.4' FPOGY='0.6' />" ++ crlf ++ crlf)
    (set_line_overflow ["<REC FPO"] module_init)
    = (Raise IndexError, module_init) /\
  fill_buffer ("GX='0.4' FPOGY='0.6' />" ++ crlf)
    (set_line_overflow ["<REC FPO"] module_init)
    = (Ok [msg_REC], module_init).
Proof.
  split; [|split; [|split; [|split; [|split]]]]; vm_compute; reflexivity.
Qed.
